(** * pyidevice: the resilience layer (stability.py) and the batch runner (batch.py)

    A shallow embedding of [RetryManager], [ConnectionPool], [HealthChecker],
    [CircuitBreaker] (src/pyidevice/stability.py) and of [BatchOperator]
    (src/pyidevice/batch.py), with the properties of their behaviour.

    Conventions of the embedding.
    - Python [float] seconds and ratios are rationals ([Q]); every expression
      is kept in the shape the source computes it in, and an operation that
      raises [OverflowError] beyond the doubles raises it here.
    - A Python [str] is held as its UTF-8 bytes; [len] counts its code
      points.
    - Python [int] is [Z]; loop indices produced by [range] are [nat].
    - [time.time()] is an input: each function takes the clock readings it
      makes as arguments, in the order it makes them.
    - A Python callable is indexed by the moment it is invoked, and yields a
      [call_outcome]: it returns a value or raises an exception.
    - A [dict] whose iteration order is observable is an insertion-ordered
      association list with unique keys ([PyDict]); a [dict] that is only
      looked up and updated by key is a [gmap].
    - Logging has no effect on any state and is left out. *)

From Stdlib Require Import ZArith QArith Qabs Qminmax Qpower Lia Lqa List Bool.
From stdpp Require Import base option list strings gmap pretty.

Local Open Scope Z_scope.

(** ** Python values and exceptions *)

Module Py.

  (** The values that flow through the modelled code ([typing.Any]). *)
Inductive pyval : Type :=
  | PyNone
  | PyBool (b : bool)
  | PyInt (z : Z)
  | PyStr (s : string)
  | PyObj (truth : bool) (repr : string).

  (** [bool(v)] *)
Definition truthy (v : pyval) : bool :=
    match v with
    | PyNone => false
    | PyBool b => b
    | PyInt z => negb (z =? 0)
    | PyStr s => negb (String.eqb s EmptyString)
    | PyObj t _ => t
    end.

  (** [len(s)] of a [str]: the number of code points, which are the bytes
      that do not continue a character (those not of the form [10xxxxxx]). *)
Definition continues_char (c : Ascii.ascii) : bool :=
    let n := Ascii.nat_of_ascii c in (128 <=? n)%nat && (n <? 192)%nat.

Fixpoint py_len (s : string) : nat :=
    match s with
    | EmptyString => O
    | String c s' => ((if continues_char c then 0 else 1) + py_len s')%nat
    end.

  (** An exception instance: the names of its class and of all the classes
      it inherits from (its method resolution order), and [str(e)]. *)
Record pyexn : Type := mk_exn { exn_mro : list string; exn_str : string }.

  (** [isinstance(e, cls)] *)
Definition isinstance (e : pyexn) (cls : string) : bool :=
    existsb (String.eqb cls) (exn_mro e).

  (** [isinstance(e, (c1, ..., cn))], the test of [except (c1, ..., cn)]. *)
Definition isinstance_any (e : pyexn) (classes : list string) : bool :=
    existsb (isinstance e) classes.

Definition Exception_mro : list string := ["Exception"; "BaseException"; "object"]%string.

Definition ValueError (msg : string) : pyexn :=
    mk_exn ("ValueError" :: Exception_mro)%string msg.
Definition RuntimeError (msg : string) : pyexn :=
    mk_exn ("RuntimeError" :: Exception_mro)%string msg.
Definition TypeError (msg : string) : pyexn :=
    mk_exn ("TypeError" :: Exception_mro)%string msg.
Definition KeyError (key : string) : pyexn :=
    mk_exn ("KeyError" :: "LookupError" :: Exception_mro)%string key.
Definition TimeoutError (msg : string) : pyexn :=
    mk_exn ("TimeoutError" :: "OSError" :: Exception_mro)%string msg.
Definition OverflowError (msg : string) : pyexn :=
    mk_exn ("OverflowError" :: "ArithmeticError" :: Exception_mro)%string msg.
Definition KeyboardInterrupt : pyexn :=
    mk_exn ["KeyboardInterrupt"; "BaseException"; "object"]%string EmptyString.

  (** What one invocation of a callable does. *)
Inductive call_outcome : Type :=
  | Returns (v : pyval)
  | Raises (e : pyexn).

  (** [min(a, b)] of two floats: the first argument unless the second is
      strictly smaller. *)
Definition py_min (a b : Q) : Q :=
    if Qlt_le_dec b a then b else a.

  (** [int(x)] of a float: truncation towards zero. *)
Definition py_int (x : Q) : Z := Z.quot (Qnum x) (Zpos (Qden x)).

  (** [random.uniform(a, b)] is [a + (b - a) * random()], where [u] is the
      draw of [random()]. *)
Definition uniform (a b u : Q) : Q := (a + (b - a) * u)%Q.

  (** [time.sleep(secs)] raises [ValueError] for a negative argument
      (durations within the range of the C timestamp, about 9.2e9 s). *)
Definition sleep (secs : Q) : option pyexn :=
    if Qlt_le_dec secs 0 then Some (ValueError "sleep length must be non-negative")
    else None.

  (** A [float] is an IEEE 754 double. A number whose magnitude reaches
      [2^1024 - 2^970], half a unit in the last place above the largest
      double, has no double to round to. *)
Definition float_limit : Q := inject_Z (2 ^ 1024 - 2 ^ 970).

Definition float_overflows (x : Q) : bool := Qle_bool float_limit (Qabs x).

  (** The conversion of an [int] operand of a float operation ([x * n],
      [x ** n]): [OverflowError] for an [int] beyond the doubles. *)
Definition float_of_int (n : Z) : Q + pyexn :=
    if float_overflows (inject_Z n)
    then inr (OverflowError "int too large to convert to float")
    else inl (inject_Z n).

  (** [x ** n] for a float [x] and an [int] [n >= 0]: [float.__pow__]
      converts [n], and raises [OverflowError] when the power is beyond the
      doubles. *)
Definition float_pow (x : Q) (n : Z) : Q + pyexn :=
    match float_of_int n with
    | inr e => inr e
    | inl _ =>
        if float_overflows (x ^ n)
        then inr (OverflowError "(34, 'Numerical result out of range')")
        else inl (x ^ n)%Q
    end.

End Py.
Import Py.

(** ** Insertion-ordered dictionaries *)

Module PyDict.
Section Dict.
Context {V : Type}.

Definition t : Type := list (string * V).

Definition keys (d : t) : list string := map fst d.

  (** [d.get(k)] *)
Fixpoint get (d : t) (k : string) : option V :=
    match d with
    | [] => None
    | (k', v) :: d' => if String.eqb k' k then Some v else get d' k
    end.

  (** [k in d] *)
Definition mem (d : t) (k : string) : bool :=
    match get d k with Some _ => true | None => false end.

  (** [d[k] = v]: an existing key keeps its place, a new one goes last. *)
Fixpoint set (d : t) (k : string) (v : V) : t :=
    match d with
    | [] => [(k, v)]
    | (k', v') :: d' =>
        if String.eqb k' k then (k', v) :: d' else (k', v') :: set d' k v
    end.

  (** [del d[k]] for a key that may be absent. *)
Fixpoint del (d : t) (k : string) : t :=
    match d with
    | [] => []
    | (k', v') :: d' =>
        if String.eqb k' k then d' else (k', v') :: del d' k
    end.

End Dict.
Arguments t : clear implicits.
End PyDict.

(** ** RetryManager *)

Module Retry.

Inductive RetryStrategy : Type := FIXED | EXPONENTIAL | LINEAR | CUSTOM.

Record RetryConfig : Type := {
    max_retries : Z;
    base_delay : Q;
    max_delay : Q;
    backoff_factor : Q;
    strategy : RetryStrategy;
    jitter : bool;
    exceptions : list string
  }.

  (** The defaults of the dataclass. *)
Definition default_config : RetryConfig :=
    {| max_retries := 3; base_delay := 1; max_delay := 60; backoff_factor := 2;
       strategy := EXPONENTIAL; jitter := true; exceptions := ["Exception"]%string |}.

  (** The [if]/[elif] chain of [_calculate_delay]: the delay of the
      strategy before it is clamped. The power and the conversion of
      [attempt + 1] can raise [OverflowError]; a product of floats cannot (it
      would be infinite, and the [min] that follows clamps it). *)
Definition strategy_delay (cfg : RetryConfig) (attempt : nat) : Q + pyexn :=
    match strategy cfg with
    | FIXED => inl (base_delay cfg)
    | EXPONENTIAL =>
        match float_pow (backoff_factor cfg) (Z.of_nat attempt) with
        | inl p => inl (base_delay cfg * p)%Q
        | inr e => inr e
        end
    | LINEAR =>
        match float_of_int (Z.of_nat attempt + 1) with
        | inl n => inl (base_delay cfg * n)%Q
        | inr e => inr e
        end
    | CUSTOM => inl (base_delay cfg)
    end.

  (** [RetryManager._calculate_delay(attempt)]; [u] is the draw of
      [random()] behind [random.uniform(0.1, 0.3)], read only with jitter. *)
Definition _calculate_delay (cfg : RetryConfig) (attempt : nat) (u : Q) : Q + pyexn :=
    match strategy_delay cfg attempt with
    | inr e => inr e
    | inl delay =>
        let delay := py_min delay (max_delay cfg) in
        if jitter cfg then
          let jit := (uniform (1#10) (3#10) u * delay)%Q in
          inl (delay + jit)%Q
        else inl delay
    end.

  (** One entry of [_retry_stats]. *)
Record stat : Type := { success : Z; failure : Z; retries : Z }.

Definition zero_stat : stat := {| success := 0; failure := 0; retries := 0 |}.

  (** [if name not in stats: stats[name] = zeros] followed by
      [stats[name][field] += 1]. *)
Definition bump (f : stat -> stat) (name : string) (stats : gmap string stat)
    : gmap string stat :=
    <[name := f (default zero_stat (stats !! name))]> stats.

Definition inc_success (s : stat) : stat :=
    {| success := success s + 1; failure := failure s; retries := retries s |}.
Definition inc_failure (s : stat) : stat :=
    {| success := success s; failure := failure s + 1; retries := retries s |}.
Definition inc_retries (s : stat) : stat :=
    {| success := success s; failure := failure s; retries := retries s + 1 |}.

  (** What [execute] has done so far: the statistics, the number of times it
      invoked the function, the delays it slept, and [last_exception]. *)
Record run : Type := {
    stats : gmap string stat;
    calls : nat;
    sleeps : list Q;
    last_exception : option pyexn
  }.

Definition start (st : gmap string stat) : run :=
    {| stats := st; calls := 0; sleeps := []; last_exception := None |}.

  (** How the [for] loop ends: by [return], by an exception that leaves it,
      or by running to its end or [break] (then [raise last_exception]). *)
Inductive loop_exit : Type :=
  | Return (v : pyval)
  | Propagate (e : pyexn)
  | Fallthrough.

Section Execute.
Variable cfg : RetryConfig.
    (** [func_name] *)
Variable name : string.
    (** what the [k]-th invocation of [func] does *)
Variable func : nat -> call_outcome.
    (** the draw of [random()] while computing the delay after attempt [k] *)
Variable rnd : nat -> Q.

    (** The body of [for attempt in range(max_retries + 1)], for the
        [remaining] attempts from [attempt] on. *)
Fixpoint attempts (remaining attempt : nat) (r : run) : run * loop_exit :=
      match remaining with
      | O => (r, Fallthrough)
      | S remaining' =>
          let r := {| stats := stats r; calls := S (calls r); sleeps := sleeps r;
                      last_exception := last_exception r |} in
          match func attempt with
          | Returns v =>
              ({| stats := bump inc_success name (stats r); calls := calls r;
                  sleeps := sleeps r; last_exception := last_exception r |},
               Return v)
          | Raises e =>
              if isinstance_any e (exceptions cfg) then
                let st := bump inc_failure name (stats r) in
                if Z.of_nat attempt <? max_retries cfg then
                  match _calculate_delay cfg attempt (rnd attempt) with
                  | inr err =>
                      ({| stats := st; calls := calls r; sleeps := sleeps r;
                          last_exception := Some e |}, Propagate err)
                  | inl delay =>
                      match sleep delay with
                      | Some err =>
                          ({| stats := st; calls := calls r; sleeps := sleeps r;
                              last_exception := Some e |}, Propagate err)
                      | None =>
                          attempts remaining' (S attempt)
                            {| stats := bump inc_retries name st; calls := calls r;
                               sleeps := sleeps r ++ [delay];
                               last_exception := Some e |}
                      end
                  end
                else
                  ({| stats := st; calls := calls r; sleeps := sleeps r;
                      last_exception := Some e |}, Fallthrough)
              else (r, Propagate e)
          end
      end.

    (** [RetryManager.execute(func)] *)
Definition execute (st : gmap string stat) : run * call_outcome :=
      let '(r, ex) := attempts (Z.to_nat (max_retries cfg + 1)) 0 (start st) in
      match ex with
      | Return v => (r, Returns v)
      | Propagate e => (r, Raises e)
      | Fallthrough =>
          match last_exception r with
          | Some e => (r, Raises e)
          | None => (r, Raises (TypeError "exceptions must derive from BaseException"))
          end
      end.
End Execute.

End Retry.

(** ** ConnectionPool *)

Module Pool.

Record ConnectionInfo : Type := {
    id : string;
    created_at : Q;
    last_used : Q;
    is_active : bool;
    metadata : gmap string pyval
  }.

Record ConnectionPool : Type := {
    max_connections : Z;
    connection_timeout : Q;
    idle_timeout : Q;
    cleanup_interval : Q;
    _connections : PyDict.t ConnectionInfo;
    (** [id(self)], which goes into the connection ids *)
    self_id : Z
  }.

  (** [ConnectionPool(max_connections, ...)]: an empty pool. *)
Definition init (max_conn : Z) (conn_timeout idle cleanup : Q) (oid : Z)
    : ConnectionPool :=
    {| max_connections := max_conn; connection_timeout := conn_timeout;
       idle_timeout := idle; cleanup_interval := cleanup;
       _connections := []; self_id := oid |}.

Definition with_connections (p : ConnectionPool) (d : PyDict.t ConnectionInfo)
    : ConnectionPool :=
    {| max_connections := max_connections p;
       connection_timeout := connection_timeout p;
       idle_timeout := idle_timeout p; cleanup_interval := cleanup_interval p;
       _connections := d; self_id := self_id p |}.

  (** [conn_info.last_used = t] *)
Definition touch (c : ConnectionInfo) (t : Q) : ConnectionInfo :=
    {| id := id c; created_at := created_at c; last_used := t;
       is_active := is_active c; metadata := metadata c |}.

  (** The first record, in iteration order, whose [is_active] is set. *)
Definition first_active (d : PyDict.t ConnectionInfo)
    : option (string * ConnectionInfo) :=
    List.find (fun kv => is_active (snd kv)) d.

  (** [f"conn_{int(t * 1000)}_{id(self)}"] *)
Definition conn_id_of (t : Q) (oid : Z) : string :=
    ("conn_" +:+ pretty (py_int (t * 1000)) +:+ "_" +:+ pretty oid)%string.

Definition pool_full (p : ConnectionPool) : pyexn :=
    RuntimeError ("连接池已满，最大连接数: " +:+ pretty (max_connections p)).

  (** [ConnectionPool._acquire_connection()]. [t1], [t2], [t3] are the
      readings of the clock in the order the call makes them: reuse makes
      one, creation makes three (id, [created_at], [last_used]). *)
Definition _acquire_connection (p : ConnectionPool) (t1 t2 t3 : Q)
    : ConnectionPool * (string + pyexn) :=
    match first_active (_connections p) with
    | Some (conn_id, conn_info) =>
        (with_connections p (PyDict.set (_connections p) conn_id (touch conn_info t1)),
         inl conn_id)
    | None =>
        if Z.of_nat (length (_connections p)) <? max_connections p then
          let conn_id := conn_id_of t1 (self_id p) in
          let conn_info :=
            {| id := conn_id; created_at := t2; last_used := t3;
               is_active := true; metadata := ∅ |} in
          (with_connections p (PyDict.set (_connections p) conn_id conn_info),
           inl conn_id)
        else (p, inr (pool_full p))
    end.

  (** [ConnectionPool._release_connection(conn_id)] *)
Definition _release_connection (p : ConnectionPool) (conn_id : string) (t : Q)
    : ConnectionPool :=
    match PyDict.get (_connections p) conn_id with
    | Some c => with_connections p (PyDict.set (_connections p) conn_id (touch c t))
    | None => p
    end.

  (** [ConnectionPool._remove_connection(conn_id)] *)
Definition _remove_connection (p : ConnectionPool) (conn_id : string)
    : ConnectionPool :=
    if PyDict.mem (_connections p) conn_id
    then with_connections p (PyDict.del (_connections p) conn_id)
    else p.

  (** The ids [_cleanup_expired_connections] collects under the lock. *)
Definition expired_connections (p : ConnectionPool) (current_time : Q)
    : list string :=
    PyDict.keys
      (List.filter
         (fun kv => if Qlt_le_dec (idle_timeout p) (current_time - last_used (snd kv))
                    then true else false)
         (_connections p)).

  (** [ConnectionPool._cleanup_expired_connections()] *)
Definition _cleanup_expired_connections (p : ConnectionPool) (current_time : Q)
    : ConnectionPool :=
    fold_left _remove_connection (expired_connections p current_time) p.

  (** [ConnectionPool.close()] *)
Definition close (p : ConnectionPool) : ConnectionPool :=
    with_connections p [].

  (** The blocks the pool runs under its lock, as atomic steps. *)
Inductive op : Type :=
  | Acquire (t1 t2 t3 : Q)
  | Release (conn_id : string) (t : Q)
  | Remove (conn_id : string)
  | Cleanup (current_time : Q)
  | Close.

Definition step (p : ConnectionPool) (o : op) : ConnectionPool :=
    match o with
    | Acquire t1 t2 t3 => fst (_acquire_connection p t1 t2 t3)
    | Release c t => _release_connection p c t
    | Remove c => _remove_connection p c
    | Cleanup t => _cleanup_expired_connections p t
    | Close => close p
    end.

  (** The pools a program can reach from a new one through the pool's
      own methods. *)
Inductive reachable (max_conn : Z) (conn_timeout idle cleanup : Q) (oid : Z)
    : ConnectionPool -> Prop :=
  | reach_init : reachable max_conn conn_timeout idle cleanup oid
                   (init max_conn conn_timeout idle cleanup oid)
  | reach_step p o :
      reachable max_conn conn_timeout idle cleanup oid p ->
      reachable max_conn conn_timeout idle cleanup oid (step p o).

(** The dictionary [get_stats] returns. *)
Record pool_stats : Type := {
  total_connections : Z;
  active_connections : Z;
  stats_max_connections : Z;
  utilization : Q
}.

(** [ConnectionPool.get_stats()] *)
Definition get_stats (p : ConnectionPool) : pool_stats :=
  let active :=
    Z.of_nat (length (List.filter (fun kv => is_active (snd kv)) (_connections p))) in
  {| total_connections := Z.of_nat (length (_connections p));
     active_connections := active;
     stats_max_connections := max_connections p;
     utilization :=
       if 0 <? max_connections p
       then (inject_Z active / inject_Z (max_connections p))%Q
       else 0%Q |}.

(** A [ConnectionContext]: the id it holds once entered. *)
Record ConnectionContext : Type := { conn_id : option string }.

(** [pool.get_connection()] *)
Definition get_connection : ConnectionContext := {| conn_id := None |}.

(** [ConnectionContext.__enter__()]: when the acquire raises, [conn_id]
    stays [None]. *)
Definition __enter__ (p : ConnectionPool) (ctx : ConnectionContext) (t1 t2 t3 : Q)
  : ConnectionPool * ConnectionContext * (string + pyexn) :=
  match _acquire_connection p t1 t2 t3 with
  | (p', inl c) => (p', {| conn_id := Some c |}, inl c)
  | (p', inr e) => (p', ctx, inr e)
  end.

(** [ConnectionContext.__exit__()]: [if self.conn_id] is false for [None]
    and for the empty string. *)
Definition __exit__ (p : ConnectionPool) (ctx : ConnectionContext) (t : Q)
  : ConnectionPool :=
  match conn_id ctx with
  | Some c => if String.eqb c EmptyString then p else _release_connection p c t
  | None => p
  end.

End Pool.

(** ** HealthChecker *)

Module Health.

Inductive HealthStatus : Type := HEALTHY | UNHEALTHY | DEGRADED | UNKNOWN.

Section Checker.
    (** What the probes observe when they are run. *)
Context {World : Type}.

Record HealthCheck : Type := {
      name : string;
      (** the call of [check_func()] under the alarm set by [_execute_check]:
          an alarm that fires shows as a raised [TimeoutError] *)
      check_func : World -> call_outcome;
      timeout : Q;
      interval : Q;
      failure_threshold : Z;
      recovery_threshold : Z
    }.

Record HealthChecker : Type := {
      _checks : PyDict.t HealthCheck;
      _status_history : list (Q * string * HealthStatus);
      _current_status : HealthStatus;
      _failure_counts : gmap string Z;
      _recovery_counts : gmap string Z
    }.

    (** [HealthChecker()] *)
Definition init : HealthChecker :=
      {| _checks := []; _status_history := []; _current_status := UNKNOWN;
         _failure_counts := ∅; _recovery_counts := ∅ |}.

    (** [HealthChecker.add_check(check)] *)
Definition add_check (hc : HealthChecker) (check : HealthCheck) : HealthChecker :=
      {| _checks := PyDict.set (_checks hc) (name check) check;
         _status_history := _status_history hc;
         _current_status := _current_status hc;
         _failure_counts := <[name check := 0]> (_failure_counts hc);
         _recovery_counts := <[name check := 0]> (_recovery_counts hc) |}.

    (** [HealthChecker.remove_check(name)]; a [del] of a missing key raises
        [KeyError]. *)
Definition remove_check (hc : HealthChecker) (nm : string)
      : HealthChecker * option pyexn :=
      if PyDict.mem (_checks hc) nm then
        let checks := PyDict.del (_checks hc) nm in
        match _failure_counts hc !! nm with
        | None =>
            ({| _checks := checks; _status_history := _status_history hc;
                _current_status := _current_status hc;
                _failure_counts := _failure_counts hc;
                _recovery_counts := _recovery_counts hc |}, Some (KeyError nm))
        | Some _ =>
            let fc := delete nm (_failure_counts hc) in
            match _recovery_counts hc !! nm with
            | None =>
                ({| _checks := checks; _status_history := _status_history hc;
                    _current_status := _current_status hc;
                    _failure_counts := fc;
                    _recovery_counts := _recovery_counts hc |}, Some (KeyError nm))
            | Some _ =>
                ({| _checks := checks; _status_history := _status_history hc;
                    _current_status := _current_status hc;
                    _failure_counts := fc;
                    _recovery_counts := delete nm (_recovery_counts hc) |}, None)
            end
        end
      else (hc, None).

    (** [HealthChecker._execute_check(check)]: [bool(result)], [False] for
        whatever [except Exception] catches; anything else leaves the call. *)
Definition _execute_check (check : HealthCheck) (w : World) : bool + pyexn :=
      match check_func check w with
      | Returns result => inl (truthy result)
      | Raises e => if isinstance e "Exception" then inl false else inr e
      end.

    (** The counters and [healthy_checks] while the loop of [check_health]
        runs. *)
Record tally : Type := {
      failures : gmap string Z;
      recoveries : gmap string Z;
      healthy_checks : Z
    }.

    (** The [except Exception] handler of the loop body:
        [_failure_counts[name] += 1; _recovery_counts[name] = 0]. *)
Definition on_exception (nm : string) (tl : tally) : tally + tally * pyexn :=
      match failures tl !! nm with
      | Some n =>
          inl {| failures := <[nm := n + 1]> (failures tl);
                 recoveries := <[nm := 0]> (recoveries tl);
                 healthy_checks := healthy_checks tl |}
      | None => inr (tl, KeyError nm)
      end.

    (** One turn of [for name, check in self._checks.items()]. *)
Definition check_one (w : World) (nm : string) (check : HealthCheck) (tl : tally)
      : tally + tally * pyexn :=
      match _execute_check check w with
      | inr e => inr (tl, e)
      | inl true =>
          let tl1 := {| failures := <[nm := 0]> (failures tl);
                        recoveries := recoveries tl;
                        healthy_checks := healthy_checks tl |} in
          match recoveries tl1 !! nm with
          | Some n =>
              inl {| failures := failures tl1;
                     recoveries := <[nm := n + 1]> (recoveries tl1);
                     healthy_checks := healthy_checks tl1 + 1 |}
          | None => on_exception nm tl1
          end
      | inl false =>
          match failures tl !! nm with
          | Some n =>
              inl {| failures := <[nm := n + 1]> (failures tl);
                     recoveries := <[nm := 0]> (recoveries tl);
                     healthy_checks := healthy_checks tl |}
          | None => on_exception nm tl
          end
      end.

Fixpoint check_all (w : World) (checks : PyDict.t HealthCheck) (tl : tally)
      : tally + tally * pyexn :=
      match checks with
      | [] => inl tl
      | (nm, check) :: rest =>
          match check_one w nm check tl with
          | inl tl' => check_all w rest tl'
          | inr err => inr err
          end
      end.

    (** The status for [health_ratio]. *)
Definition status_of_ratio (health_ratio : Q) : HealthStatus :=
      if Qle_bool (9 # 10) health_ratio then HEALTHY
      else if Qle_bool (5 # 10) health_ratio then DEGRADED
      else UNHEALTHY.

    (** [history[-500:]] when the length exceeds 1000. *)
Definition trim_history {A : Type} (h : list A) : list A :=
      if (1000 <? length h)%nat then skipn (length h - 500) h else h.

    (** [HealthChecker.check_health()], run in world [w] with the clock at
        [now] when the history entry is written. *)
Definition check_health (hc : HealthChecker) (w : World) (now : Q)
      : HealthChecker * (HealthStatus + pyexn) :=
      match _checks hc with
      | [] =>
          ({| _checks := _checks hc; _status_history := _status_history hc;
              _current_status := UNKNOWN;
              _failure_counts := _failure_counts hc;
              _recovery_counts := _recovery_counts hc |}, inl UNKNOWN)
      | _ :: _ =>
          let total_checks := Z.of_nat (length (_checks hc)) in
          match check_all w (_checks hc)
                  {| failures := _failure_counts hc;
                     recoveries := _recovery_counts hc;
                     healthy_checks := 0 |} with
          | inr (tl, e) =>
              ({| _checks := _checks hc; _status_history := _status_history hc;
                  _current_status := _current_status hc;
                  _failure_counts := failures tl;
                  _recovery_counts := recoveries tl |}, inr e)
          | inl tl =>
              let health_ratio :=
                (inject_Z (healthy_checks tl) / inject_Z total_checks)%Q in
              let status := status_of_ratio health_ratio in
              ({| _checks := _checks hc;
                  _status_history :=
                    trim_history (_status_history hc ++ [(now, "overall"%string, status)]);
                  _current_status := status;
                  _failure_counts := failures tl;
                  _recovery_counts := recoveries tl |}, inl status)
          end
      end.

(** [HealthChecker.get_status()] *)
Definition get_status (hc : HealthChecker) : HealthStatus := _current_status hc.

(** [HealthChecker.get_status_history(limit)]: the slice [history[-limit:]]
    for a positive [limit], a copy of the whole history otherwise. *)
Definition get_status_history (hc : HealthChecker) (limit : Z)
  : list (Q * string * HealthStatus) :=
  if 0 <? limit
  then skipn (length (_status_history hc) - Z.to_nat limit) (_status_history hc)
  else _status_history hc.

(** [HealthChecker.get_check_stats()]: for every registered name, its
    failures and recoveries, 0 where a counter is missing. *)
Definition get_check_stats (hc : HealthChecker) : PyDict.t (Z * Z) :=
  map (fun kv => (fst kv, (default 0 (_failure_counts hc !! fst kv),
                           default 0 (_recovery_counts hc !! fst kv))))
      (_checks hc).

End Checker.
Arguments HealthCheck : clear implicits.
Arguments HealthChecker : clear implicits.

End Health.

(** ** CircuitBreaker *)

Module Breaker.

Inductive CircuitState : Type := CLOSED | OPEN | HALF_OPEN.

Record CircuitBreaker : Type := {
    failure_threshold : Z;
    recovery_timeout : Q;
    expected_exception : string;
    _state : CircuitState;
    _failure_count : Z;
    _last_failure_time : Q;
    _success_count : Z
  }.

  (** [CircuitBreaker(failure_threshold, recovery_timeout, expected_exception)] *)
Definition init (threshold : Z) (recovery : Q) (expected : string) : CircuitBreaker :=
    {| failure_threshold := threshold; recovery_timeout := recovery;
       expected_exception := expected;
       _state := CLOSED; _failure_count := 0; _last_failure_time := 0;
       _success_count := 0 |}.

Definition update (cb : CircuitBreaker) (s : CircuitState) (fc : Z) (lft : Q) (sc : Z)
    : CircuitBreaker :=
    {| failure_threshold := failure_threshold cb;
       recovery_timeout := recovery_timeout cb;
       expected_exception := expected_exception cb;
       _state := s; _failure_count := fc; _last_failure_time := lft;
       _success_count := sc |}.

  (** [CircuitBreaker._on_success()] *)
Definition _on_success (cb : CircuitBreaker) : CircuitBreaker :=
    match _state cb with
    | HALF_OPEN =>
        let sc := _success_count cb + 1 in
        if 2 <=? sc
        then update cb CLOSED 0 (_last_failure_time cb) sc
        else update cb HALF_OPEN (_failure_count cb) (_last_failure_time cb) sc
    | s => update cb s 0 (_last_failure_time cb) (_success_count cb)
    end.

  (** [CircuitBreaker._on_failure()], with the clock at [now]. *)
Definition _on_failure (cb : CircuitBreaker) (now : Q) : CircuitBreaker :=
    let fc := _failure_count cb + 1 in
    if failure_threshold cb <=? fc
    then update cb OPEN fc now (_success_count cb)
    else update cb (_state cb) fc now (_success_count cb).

Definition breaker_open : pyexn := RuntimeError "熔断器处于打开状态，拒绝调用".

  (** The first block of [call]: an open breaker turns half-open once the
      recovery timeout has passed, and rejects the call before that. *)
Definition gate_call (cb : CircuitBreaker) (now : Q) : CircuitBreaker + pyexn :=
    match _state cb with
    | OPEN =>
        if Qlt_le_dec (recovery_timeout cb) (now - _last_failure_time cb)
        then inl (update cb HALF_OPEN (_failure_count cb) (_last_failure_time cb) 0)
        else inr breaker_open
    | _ => inl cb
    end.

  (** What a call leaves behind: the breaker, what the caller gets, and
      whether the wrapped function was invoked. *)
Record called : Type := {
    after : CircuitBreaker;
    outcome : call_outcome;
    invoked : bool
  }.

  (** [CircuitBreaker.call(func)]: [now] is the clock when the call
      arrives, [func] what the function does if it is invoked, [now_fail]
      the clock when [_on_failure] reads it. *)
Definition call (cb : CircuitBreaker) (now : Q) (func : call_outcome) (now_fail : Q)
    : called :=
    match gate_call cb now with
    | inr e => {| after := cb; outcome := Raises e; invoked := false |}
    | inl cb1 =>
        match func with
        | Returns result =>
            {| after := _on_success cb1; outcome := Returns result; invoked := true |}
        | Raises e =>
            if isinstance e (expected_exception cb1)
            then {| after := _on_failure cb1 now_fail; outcome := Raises e; invoked := true |}
            else {| after := cb1; outcome := Raises e; invoked := true |}
        end
    end.

  (** [CircuitBreaker.reset()] *)
Definition reset (cb : CircuitBreaker) : CircuitBreaker :=
    update cb CLOSED 0 0 0.

  (** A sequence of calls, oldest first. *)
Fixpoint calls (cb : CircuitBreaker) (events : list (Q * call_outcome * Q))
    : CircuitBreaker * list called :=
    match events with
    | [] => (cb, [])
    | (now, func, now_fail) :: rest =>
        let c := call cb now func now_fail in
        let '(cb', cs) := calls (after c) rest in
        (cb', c :: cs)
    end.

  (** The breakers a program can reach from a new one. *)
Inductive reachable (threshold : Z) (recovery : Q) (expected : string)
    : CircuitBreaker -> Prop :=
  | reach_init : reachable threshold recovery expected (init threshold recovery expected)
  | reach_call cb now func now_fail :
      reachable threshold recovery expected cb ->
      reachable threshold recovery expected (after (call cb now func now_fail))
  | reach_reset cb :
      reachable threshold recovery expected cb ->
      reachable threshold recovery expected (reset cb).

End Breaker.

(** ** BatchOperator *)

Module Batch.

Record BatchResult : Type := {
    udid : string;
    success : bool;
    result : pyval;
    error : option string;
    duration : Q
  }.

  (** A [Device] as its constructor leaves it. *)
Record Device : Type := {
    device_udid : string;
    _info_cache : pyval;
    _last_info_update : Z
  }.

Record BatchOperator : Type := {
    max_workers : Z;
    timeout : Q
  }.

Section Operator.
    (** whether [int(udid, 16)] parses its argument *)
Variable int16_parses : string -> bool.

    (** [InputValidator.validate_udid(udid)] *)
Definition validate_udid (u : string) : bool :=
      if negb (Nat.eqb (py_len u) 40) then false
      else int16_parses u.

    (** [Device(udid)] *)
Definition Device_init (u : string) : Device + pyexn :=
      if negb (validate_udid u)
      then inr (ValueError ("无效的UDID格式: " +:+ u))
      else inl {| device_udid := u; _info_cache := PyNone; _last_info_update := 0 |}.

    (** The [except Exception as e] branch of [_execute_single]. *)
Definition failed (u : string) (e : pyexn) (d : Q) : BatchResult :=
      {| udid := u; success := false; result := PyNone;
         error := Some (exn_str e); duration := d |}.

    (** [BatchOperator._execute_single(udid, operation)]: the clock reads
        [start_time] on entry and [end_time] when the duration is taken.
        The value is what the worker's future holds: a result, or the
        exception that left the worker. *)
Definition _execute_single (u : string) (operation : Device -> call_outcome)
        (start_time end_time : Q) : BatchResult + pyexn :=
      let attempt :=
        match Device_init u with
        | inr e => Raises e
        | inl device => operation device
        end in
      match attempt with
      | Returns r =>
          inl {| udid := u; success := true; result := r; error := None;
                 duration := (end_time - start_time)%Q |}
      | Raises e =>
          if isinstance e "Exception"
          then inl (failed u e (end_time - start_time)%Q)
          else inr e
      end.

    (** The body of [for future in as_completed(...)], over the futures
        in the order they are yielded. *)
Fixpoint collect (futures : list (string * (BatchResult + pyexn)))
        (yielded : list nat) (results : list BatchResult)
      : list BatchResult + pyexn :=
      match yielded with
      | [] => inl results
      | i :: rest =>
          match futures !! i with
          | None => collect futures rest results
          | Some (u, inl r) => collect futures rest (results ++ [r])
          | Some (u, inr e) =>
              if isinstance e "Exception"
              then collect futures rest (results ++ [failed u e 0])
              else inr e
          end
      end.

    (** The futures [as_completed] has not yielded when it stops. *)
Definition pending (total : nat) (yielded : list nat) : list nat :=
      List.filter (fun i => negb (existsb (Nat.eqb i) yielded)) (seq 0 total).

    (** The error [as_completed] raises when its timeout passes. *)
Definition unfinished (n total : nat) : pyexn :=
      TimeoutError (pretty n +:+ " (of " +:+ pretty total +:+ ") futures unfinished").

    (** [BatchOperator.execute_batch(udids, operation)].
        [operation i] is what the operation does in the worker of the
        [i]-th key, [clock i] the two clock readings of that worker, and
        [yielded] the indices of the futures that finish before the
        timeout of [as_completed], in the order they finish. *)
Definition execute_batch (self : BatchOperator) (udids : list string)
        (operation : nat -> Device -> call_outcome) (clock : nat -> Q * Q)
        (yielded : list nat) : list BatchResult + pyexn :=
      if max_workers self <=? 0
      then inr (ValueError "max_workers must be greater than 0")
      else
        let future_to_udid :=
          imap (fun i u => (u, _execute_single u (operation i)
                                 (fst (clock i)) (snd (clock i)))) udids in
        match collect future_to_udid yielded [] with
        | inr e => inr e
        | inl results =>
            match pending (length udids) yielded with
            | [] => inl results
            | p => inr (unfinished (length p) (length udids))
            end
        end.

    (** A run of [as_completed] yields every future at most once. *)
Definition schedule_ok (total : nat) (yielded : list nat) : Prop :=
      NoDup yielded /\ Forall (fun i => (i < total)%nat) yielded.

End Operator.

Section Report.
(** [round(x, 2)] of a float *)
Variable round2 : Q -> Q.

(** The dictionary [generate_summary_report] returns. *)
Record summary : Type := {
  operation_name : string;
  total_count : Z;
  success_count : Z;
  failure_count : Z;
  success_rate : Q;
  total_duration : Q;
  avg_duration : Q;
  failed_devices : list string;
  timestamp : Q
}.

(** [sum(...)] of floats: 0 for no summand, the additions from 0 otherwise. *)
Definition sum_durations (results : list BatchResult) : Q :=
  fold_left Qplus (map duration results) 0%Q.

(** [BatchReportGenerator.generate_summary_report(results, operation_name)],
    with the clock at [now]. A rate or a sum that is the integer 0 is left as
    it is by [round]. *)
Definition generate_summary_report (results : list BatchResult) (name : string)
    (now : Q) : summary :=
  let total := Z.of_nat (length results) in
  let successes := Z.of_nat (length (List.filter success results)) in
  {| operation_name := name;
     total_count := total;
     success_count := successes;
     failure_count := total - successes;
     success_rate :=
       if 0 <? total then round2 (inject_Z successes / inject_Z total * 100)%Q else 0%Q;
     total_duration :=
       match results with [] => 0%Q | _ => round2 (sum_durations results) end;
     avg_duration :=
       if 0 <? total then round2 (sum_durations results / inject_Z total)%Q else 0%Q;
     failed_devices := map udid (List.filter (fun r => negb (success r)) results);
     timestamp := now |}.

(** One entry of [detailed_results]. *)
Record detail : Type := {
  detail_udid : string;
  detail_success : bool;
  detail_result : pyval;
  detail_error : option string;
  detail_duration : Q
}.

(** [BatchReportGenerator.generate_detailed_report(results, operation_name)]:
    the summary and the entry of every result, in order. *)
Definition generate_detailed_report (results : list BatchResult) (name : string)
    (now : Q) : summary * list detail :=
  (generate_summary_report results name now,
   map (fun r => {| detail_udid := udid r; detail_success := success r;
                    detail_result := result r; detail_error := error r;
                    detail_duration := round2 (duration r) |}) results).

End Report.

End Batch.


(** ** TimeoutManager *)

Module Timeout.

Record TimeoutManager : Type := {
  default_timeout : Q;
  _timeout_stats : gmap string (list Q)
}.

(** [TimeoutManager(default_timeout)] *)
Definition init (d : Q) : TimeoutManager :=
  {| default_timeout := d; _timeout_stats := ∅ |}.

(** [max(a, b)] of two floats: the first argument unless the second is
    strictly greater. *)
Definition py_max (a b : Q) : Q :=
  if Qlt_le_dec a b then b else a.

(** [sum(times)]: the additions run from 0, left to right. *)
Definition py_sum (times : list Q) : Q := fold_left Qplus times 0%Q.

(** [TimeoutManager._record_execution_time(func_name, execution_time)] *)
Definition _record_execution_time (tm : TimeoutManager) (func_name : string)
    (execution_time : Q) : TimeoutManager :=
  let times := default [] (_timeout_stats tm !! func_name) ++ [execution_time] in
  let times :=
    if (100 <? length times)%nat then skipn (length times - 50) times else times in
  {| default_timeout := default_timeout tm;
     _timeout_stats := <[func_name := times]> (_timeout_stats tm) |}.

(** [TimeoutManager.get_suggested_timeout(func_name)] *)
Definition get_suggested_timeout (tm : TimeoutManager) (func_name : string) : Q :=
  match _timeout_stats tm !! func_name with
  | None => default_timeout tm
  | Some [] => default_timeout tm
  | Some times =>
      let avg_time := (py_sum times / inject_Z (Z.of_nat (length times)))%Q in
      let suggested := py_min (avg_time * 3) (default_timeout tm * 2) in
      py_max suggested 1
  end.

(** [timeout or self.default_timeout]: [None] and [0] give the default. *)
Definition actual_timeout (tm : TimeoutManager) (timeout : option Q) : Q :=
  match timeout with
  | None => default_timeout tm
  | Some t => if Qeq_bool t 0 then default_timeout tm else t
  end.

(** The wrapper [with_timeout(timeout)(func)] builds, applied once.
    [body] is what the guarded call does: it returns, or it raises (the
    [TimeoutError] of the alarm included); [start_time] and [end_time] are
    the two readings of the clock. The [finally] block records the time
    whatever the body did. *)
Definition wrapper (tm : TimeoutManager) (timeout : option Q) (func_name : string)
    (body : call_outcome) (start_time end_time : Q) : TimeoutManager * call_outcome :=
  (_record_execution_time tm func_name (end_time - start_time)%Q, body).

End Timeout.

(** ** ResourceManager *)

Module Resource.

(** One entry of [_resource_metadata]. *)
Record metadata : Type := {
  created_at : Q;
  (** [None], or the function to call with the resource when it is
      unregistered *)
  cleanup_func : option (pyval -> call_outcome);
  ref_count : Z
}.

Record ResourceManager : Type := {
  _resources : PyDict.t pyval;
  _resource_metadata : PyDict.t metadata
}.

(** [ResourceManager()] *)
Definition init : ResourceManager :=
  {| _resources := []; _resource_metadata := [] |}.

(** [ResourceManager.register_resource(name, resource, cleanup_func)], with
    the clock at [now]. *)
Definition register_resource (rm : ResourceManager) (name : string) (resource : pyval)
    (cleanup : option (pyval -> call_outcome)) (now : Q) : ResourceManager :=
  {| _resources := PyDict.set (_resources rm) name resource;
     _resource_metadata :=
       PyDict.set (_resource_metadata rm) name
         {| created_at := now; cleanup_func := cleanup; ref_count := 0 |} |}.

(** What an operation that may call cleanup functions leaves: the manager,
    the names whose cleanup function it called, in order, and the exception
    that left it, if any. *)
Record cleaned : Type := {
  manager : ResourceManager;
  cleanups : list string;
  raised : option pyexn
}.

(** The two [del] statements that end [unregister_resource]. *)
Definition remove_entries (rm : ResourceManager) (name : string) (calls : list string)
  : cleaned :=
  let resources := PyDict.del (_resources rm) name in
  if PyDict.mem (_resource_metadata rm) name
  then {| manager := {| _resources := resources;
                        _resource_metadata := PyDict.del (_resource_metadata rm) name |};
          cleanups := calls; raised := None |}
  else {| manager := {| _resources := resources;
                        _resource_metadata := _resource_metadata rm |};
          cleanups := calls; raised := Some (KeyError name) |}.

(** [ResourceManager.unregister_resource(name)] *)
Definition unregister_resource (rm : ResourceManager) (name : string) : cleaned :=
  match PyDict.get (_resources rm) name with
  | None => {| manager := rm; cleanups := []; raised := None |}
  | Some resource =>
      let cleanup :=
        match PyDict.get (_resource_metadata rm) name with
        | Some meta => cleanup_func meta
        | None => None
        end in
      match cleanup with
      | None => remove_entries rm name []
      | Some f =>
          match f resource with
          | Returns _ => remove_entries rm name [name]
          | Raises e =>
              if isinstance e "Exception"
              then remove_entries rm name [name]
              else {| manager := rm; cleanups := [name]; raised := Some e |}
          end
      end
  end.

(** [ResourceManager.get_resource(name)]: the resource, or [None]. *)
Definition get_resource (rm : ResourceManager) (name : string)
  : ResourceManager * (option pyval + pyexn) :=
  match PyDict.get (_resources rm) name with
  | None => (rm, inl None)
  | Some resource =>
      match PyDict.get (_resource_metadata rm) name with
      | None => (rm, inr (KeyError name))
      | Some meta =>
          ({| _resources := _resources rm;
              _resource_metadata :=
                PyDict.set (_resource_metadata rm) name
                  {| created_at := created_at meta; cleanup_func := cleanup_func meta;
                     ref_count := ref_count meta + 1 |} |},
           inl (Some resource))
      end
  end.

(** [ResourceManager.release_resource(name)] *)
Definition release_resource (rm : ResourceManager) (name : string) : ResourceManager :=
  match PyDict.get (_resource_metadata rm) name with
  | None => rm
  | Some meta =>
      {| _resources := _resources rm;
         _resource_metadata :=
           PyDict.set (_resource_metadata rm) name
             {| created_at := created_at meta; cleanup_func := cleanup_func meta;
                ref_count := Z.max 0 (ref_count meta - 1) |} |}
  end.

(** Whether [cleanup_unused_resources] takes the entry. *)
Definition unused (max_age current_time : Q) (meta : metadata) : bool :=
  (ref_count meta =? 0)
  && (if Qlt_le_dec max_age (current_time - created_at meta) then true else false).

(** The loop [for name in unused_resources: self.unregister_resource(name)]. *)
Fixpoint unregister_all (rm : ResourceManager) (names : list string) (calls : list string)
  : cleaned :=
  match names with
  | [] => {| manager := rm; cleanups := calls; raised := None |}
  | name :: rest =>
      let c := unregister_resource rm name in
      match raised c with
      | Some e => {| manager := manager c; cleanups := calls ++ cleanups c;
                     raised := Some e |}
      | None => unregister_all (manager c) rest (calls ++ cleanups c)
      end
  end.

(** [ResourceManager.cleanup_unused_resources(max_age)], with the clock at
    [current_time]. *)
Definition cleanup_unused_resources (rm : ResourceManager) (max_age current_time : Q)
  : cleaned :=
  let unused_resources :=
    PyDict.keys
      (List.filter (fun kv => unused max_age current_time (snd kv))
                   (_resource_metadata rm)) in
  unregister_all rm unused_resources [].

(** The totals of [ResourceManager.get_stats()]. *)
Definition total_resources (rm : ResourceManager) : Z :=
  Z.of_nat (length (_resources rm)).

Definition total_references (rm : ResourceManager) : Z :=
  fold_left Z.add (map (fun kv => ref_count (snd kv)) (_resource_metadata rm)) 0.

(** The managers a program can reach from a new one. *)
Inductive reachable : ResourceManager -> Prop :=
| reach_init : reachable init
| reach_register rm name resource cleanup now :
    reachable rm -> reachable (register_resource rm name resource cleanup now)
| reach_unregister rm name :
    reachable rm -> reachable (manager (unregister_resource rm name))
| reach_get rm name :
    reachable rm -> reachable (fst (get_resource rm name))
| reach_release rm name :
    reachable rm -> reachable (release_resource rm name)
| reach_cleanup rm max_age current_time :
    reachable rm -> reachable (manager (cleanup_unused_resources rm max_age current_time)).

End Resource.

(** ** The decorator [validate_input] *)

Module Validate.

(** The loop over [validators.items()]: the first parameter that is passed
    by keyword and that its validator rejects. *)
Fixpoint first_rejected (validators : PyDict.t (pyval -> bool)) (kwargs : PyDict.t pyval)
  : option string :=
  match validators with
  | [] => None
  | (param_name, validator) :: rest =>
      match PyDict.get kwargs param_name with
      | Some value =>
          if negb (validator value) then Some param_name
          else first_rejected rest kwargs
      | None => first_rejected rest kwargs
      end
  end.

(** The wrapper that [validate_input] builds around [func], applied to the
    keyword arguments [kwargs]; [body] is what [func] does when it is
    called. The second component tells whether [func] was called. *)
Definition wrapper (validators : PyDict.t (pyval -> bool)) (kwargs : PyDict.t pyval)
    (body : call_outcome) : call_outcome * bool :=
  match first_rejected validators kwargs with
  | Some param_name => (Raises (ValueError ("参数验证失败: " +:+ param_name)), false)
  | None => (body, true)
  end.

End Validate.

(** * Vocabulary of the properties *)

(** ** RetryManager *)

(** The delay of the strategy, clamped, as the specification words it. *)
Definition clamped_delay (cfg : Retry.RetryConfig) (i : nat) : Q :=
  Qmin
    match Retry.strategy cfg with
    | Retry.EXPONENTIAL => (Retry.base_delay cfg * Retry.backoff_factor cfg ^ Z.of_nat i)%Q
    | Retry.LINEAR => (Retry.base_delay cfg * inject_Z (Z.of_nat i + 1))%Q
    | Retry.FIXED | Retry.CUSTOM => Retry.base_delay cfg
    end
    (Retry.max_delay cfg).

(** The numbers the strategy computes after the attempt [i] are within the
    doubles: [i] and the power [backoff_factor ** i] for the exponential
    strategy, [i + 1] for the linear one. *)
Definition delay_in_range (cfg : Retry.RetryConfig) (i : nat) : Prop :=
  match Retry.strategy cfg with
  | Retry.EXPONENTIAL =>
      float_overflows (inject_Z (Z.of_nat i)) = false
      /\ float_overflows (Retry.backoff_factor cfg ^ Z.of_nat i) = false
  | Retry.LINEAR => float_overflows (inject_Z (Z.of_nat i + 1)) = false
  | Retry.FIXED | Retry.CUSTOM => True
  end.

(** A configuration whose counts and durations are not negative. *)
Definition valid_config (cfg : Retry.RetryConfig) : Prop :=
  0 <= Retry.max_retries cfg
  /\ (0 <= Retry.base_delay cfg)%Q
  /\ (0 <= Retry.max_delay cfg)%Q
  /\ (0 <= Retry.backoff_factor cfg)%Q.

(** The entry of [name] in the statistics, all zero while it is missing. *)
Definition stat_of (name : string) (st : gmap string Retry.stat) : Retry.stat :=
  default Retry.zero_stat (st !! name).

(** An entry after [j] failed attempts that were each retried. *)
Definition retried_stat (j : nat) (s : Retry.stat) : Retry.stat :=
  {| Retry.success := Retry.success s;
     Retry.failure := Retry.failure s + Z.of_nat j;
     Retry.retries := Retry.retries s + Z.of_nat j |}.

(** The [i]-th invocation of [func] raises an exception that
    [except self.config.exceptions] catches. *)
Definition fails_retryable (cfg : Retry.RetryConfig) (func : nat -> call_outcome)
    (i : nat) : Prop :=
  exists e, func i = Raises e /\ isinstance_any e (Retry.exceptions cfg) = true.

(** ** CircuitBreaker *)


(** A call whose function raises an exception of the expected type. *)
Definition expected_failure (expected : string) (ev : Q * call_outcome * Q) : Prop :=
  exists e, snd (fst ev) = Raises e /\ isinstance e expected = true.

(** ** ConnectionPool *)

(** The number of records the pool holds. *)
Definition pool_size (p : Pool.ConnectionPool) : Z :=
  Z.of_nat (length (Pool._connections p)).

(** Every record of the pool has [is_active] set. *)
Definition all_active (p : Pool.ConnectionPool) : Prop :=
  Forall (fun kv => Pool.is_active (snd kv) = true) (Pool._connections p).

(** ** HealthChecker *)

(** Every registered check has its two counters. *)
Definition wf_checker {World : Type} (hc : Health.HealthChecker World) : Prop :=
  Forall (fun kv => is_Some (Health._failure_counts hc !! fst kv)
                    /\ is_Some (Health._recovery_counts hc !! fst kv))
         (Health._checks hc).

(** In world [w] no probe raises anything that [except Exception] lets
    through. *)
Definition probes_contained {World : Type} (w : World)
    (checks : PyDict.t (Health.HealthCheck World)) : Prop :=
  Forall (fun kv => exists b, Health._execute_check (snd kv) w = inl b) checks.

(** Whether a probe passes in world [w]. *)
Definition passes {World : Type} (w : World) (check : Health.HealthCheck World) : bool :=
  match Health._execute_check check w with
  | inl true => true
  | _ => false
  end.

(** The number of registered probes that pass in world [w]. *)
Definition passed {World : Type} (w : World)
    (checks : PyDict.t (Health.HealthCheck World)) : Z :=
  Z.of_nat (length (List.filter (fun kv => passes w (snd kv)) checks)).

(** The share of the registered probes that pass in world [w]. *)
Definition pass_ratio {World : Type} (w : World)
    (checks : PyDict.t (Health.HealthCheck World)) : Q :=
  (inject_Z (passed w checks) / inject_Z (Z.of_nat (length checks)))%Q.

(** The checkers a program can reach from a new one. *)
Inductive checker_reachable {World : Type} : Health.HealthChecker World -> Prop :=
| cr_init : checker_reachable Health.init
| cr_add hc check :
    checker_reachable hc -> checker_reachable (Health.add_check hc check)
| cr_remove hc nm :
    checker_reachable hc -> checker_reachable (fst (Health.remove_check hc nm))
| cr_check hc w now :
    checker_reachable hc -> checker_reachable (fst (Health.check_health hc w now)).

(** The tally a turn of the loop leaves, whether or not it raised. *)
Definition tally_of {World : Type}
    (r : Health.tally + Health.tally * pyexn) : Health.tally :=
  match r with
  | inl tl => tl
  | inr (tl, _) => tl
  end.

(** The keys of the registry are distinct and each has its counters. *)
Definition checker_inv {World : Type} (hc : Health.HealthChecker World) : Prop :=
  NoDup (PyDict.keys (Health._checks hc)) /\ wf_checker hc.

(** ** BatchOperator *)

(** No operation of the batch raises anything that [except Exception]
    lets through. *)
Definition contained (int16_parses : string -> bool) (udids : list string)
    (operation : nat -> Batch.Device -> call_outcome) : Prop :=
  forall i u device e,
    udids !! i = Some u ->
    Batch.Device_init int16_parses u = inl device ->
    operation i device = Raises e ->
    isinstance e "Exception" = true.

(** What the future of the [i]-th key holds. *)
Definition worker (int16_parses : string -> bool) (udids : list string)
    (operation : nat -> Batch.Device -> call_outcome) (clock : nat -> Q * Q)
    (i : nat) : option (Batch.BatchResult + pyexn) :=
  match udids !! i with
  | Some u =>
      Some (Batch._execute_single int16_parses u (operation i)
              (fst (clock i)) (snd (clock i)))
  | None => None
  end.

(** * Examples *)

Section RetryExamples.
Import Retry.

(** Concrete runs: two retries at a fixed tenth of a second. *)
Definition fixed_config : RetryConfig :=
  {| max_retries := 2; base_delay := 1 # 10; max_delay := 60; backoff_factor := 2;
     strategy := FIXED; jitter := false; exceptions := ["Exception"]%string |}.

Definition always_down (_ : nat) : call_outcome := Raises (RuntimeError "device offline").

Definition interrupted (i : nat) : call_outcome :=
  match i with
  | O => Raises (RuntimeError "device offline")
  | _ => Raises KeyboardInterrupt
  end.

End RetryExamples.

Section BreakerExamples.
Import Breaker.

(** A breaker with threshold 3 and a minute of recovery: three failures
    open it; a success after the minute leaves it half-open. *)
Definition three_failures : list (Q * call_outcome * Q) :=
  [(1%Q, Raises (RuntimeError "device offline"), 1%Q);
   (2%Q, Raises (RuntimeError "device offline"), 2%Q);
   (3%Q, Raises (RuntimeError "device offline"), 3%Q)].

Definition opened : CircuitBreaker :=
  fst (calls (init 3 60 "Exception") three_failures).

Definition half_opened : CircuitBreaker :=
  after (call opened 100 (Returns PyNone) 100).

End BreakerExamples.

Section PoolExamples.
Import Pool.

(** A pool of two connections with a five-minute idle timeout, after an
    acquire, a release, and a second acquire. *)
Definition small_pool : ConnectionPool := init 2 30 300 60 7.

Definition used_pool : ConnectionPool :=
  step (step (step small_pool (Acquire 10 10 10)) (Release "conn_10000_7" 11))
       (Acquire 12 12 12).

(** A pool that admits no connection. *)
Definition closed_pool : ConnectionPool := init 0 30 300 60 7.

End PoolExamples.

(** The counters a tally has for the keys of [checks]. *)
Definition tally_covers {World : Type} (tl : Health.tally)
    (checks : PyDict.t (Health.HealthCheck World)) : Prop :=
  Forall (fun kv => is_Some (Health.failures tl !! fst kv)
                    /\ is_Some (Health.recoveries tl !! fst kv))
         checks.

(** A checker with two probes, one that passes and one that raises, and a
    checker with the passing probe alone. *)
Definition usb_probe : Health.HealthCheck unit :=
  {| Health.name := "usb"; Health.check_func := fun _ => Returns (PyBool true);
     Health.timeout := 5; Health.interval := 30;
     Health.failure_threshold := 3; Health.recovery_threshold := 2 |}.

Definition wda_probe : Health.HealthCheck unit :=
  {| Health.name := "wda";
     Health.check_func := fun _ => Raises (RuntimeError "connection refused");
     Health.timeout := 5; Health.interval := 30;
     Health.failure_threshold := 3; Health.recovery_threshold := 2 |}.

Definition one_probe : Health.HealthChecker unit :=
  Health.add_check Health.init usb_probe.

(** A checker whose only probe is interrupted from the keyboard. *)
Definition interrupted_probe : Health.HealthCheck unit :=
  {| Health.name := "usb"; Health.check_func := fun _ => Raises KeyboardInterrupt;
     Health.timeout := 5; Health.interval := 30;
     Health.failure_threshold := 3; Health.recovery_threshold := 2 |}.

Definition interrupted_checker : Health.HealthChecker unit :=
  Health.add_check Health.init interrupted_probe.

Definition two_probes : Health.HealthChecker unit :=
  Health.add_check one_probe wda_probe.

(** The checker [hc] after one run at each of the seconds [nows]. *)
Definition runs (hc : Health.HealthChecker unit) (nows : list nat)
    : Health.HealthChecker unit :=
  fold_left (fun hc i => fst (Health.check_health hc tt (inject_Z (Z.of_nat i)))) nows hc.

(** The checker with the two probes after a thousand runs. *)
Definition long_running : Health.HealthChecker unit := runs two_probes (seq 0 1000).

(** A batch over two devices and a malformed key. The first operation
    returns, the second raises; every string of 40 characters is taken as a
    number in base 16. *)
Definition phone_a : string := "00008020001234567890123400008020001234ab".
Definition phone_b : string := "00008030001234567890123400008030001234cd".

Definition batch_keys : list string := [phone_a; phone_b; "not-a-udid"%string].

(** A key of 40 fullwidth digits: 40 code points in 120 bytes. *)
Definition fullwidth_key : string :=
  fold_right String.append EmptyString (repeat "０"%string 40).

Definition batch_operation (i : nat) (_ : Batch.Device) : call_outcome :=
  match i with
  | O => Returns (PyStr "iPhone")
  | _ => Raises (RuntimeError "device offline")
  end.

Definition batch_clock (i : nat) : Q * Q := (inject_Z (Z.of_nat i), inject_Z (Z.of_nat i) + 2)%Q.

Definition default_operator : Batch.BatchOperator :=
  {| Batch.max_workers := 5; Batch.timeout := 300 |}.

Section RetryFurtherExamples.
Import Retry.

(** A configuration with a negative retry count, and one with a negative
    delay. *)
Definition no_attempt_config : RetryConfig :=
  {| max_retries := -1; base_delay := 1; max_delay := 60; backoff_factor := 2;
     strategy := EXPONENTIAL; jitter := true; exceptions := ["Exception"]%string |}.


Definition exponential_config : RetryConfig :=
  {| max_retries := 5; base_delay := 1; max_delay := 60; backoff_factor := 2;
     strategy := EXPONENTIAL; jitter := false; exceptions := ["Exception"]%string |}.

(** The default configuration with jitter off and 1100 retries. *)
Definition long_retry_config : RetryConfig :=
  {| max_retries := 1100; base_delay := 1; max_delay := 60; backoff_factor := 2;
     strategy := EXPONENTIAL; jitter := false; exceptions := ["Exception"]%string |}.

(** Three retries without delay and a backoff factor of [1e200]. *)
Definition steep_config : RetryConfig :=
  {| max_retries := 3; base_delay := 0; max_delay := 60;
     backoff_factor := inject_Z (10 ^ 200);
     strategy := EXPONENTIAL; jitter := true; exceptions := ["Exception"]%string |}.

End RetryFurtherExamples.

(** ** CircuitBreaker, further *)

(** The ranges the counters of a breaker stay in. *)
Definition breaker_ranges (cb : Breaker.CircuitBreaker) : Prop :=
  0 <= Breaker._failure_count cb
  /\ 0 <= Breaker._success_count cb <= 2
  /\ (Breaker._state cb = Breaker.HALF_OPEN -> Breaker._success_count cb <= 1)
  /\ (Breaker._state cb = Breaker.CLOSED ->
      Breaker._failure_count cb < Breaker.failure_threshold cb).

(** A call that arrives before the recovery timeout of [cb] has passed. *)
Definition within_recovery (cb : Breaker.CircuitBreaker) (ev : Q * call_outcome * Q) : Prop :=
  ~ (Breaker.recovery_timeout cb < fst (fst ev) - Breaker._last_failure_time cb)%Q.

(** A call whose function raises an exception that is not of the expected
    type. *)
Definition unexpected_failure (expected : string) (ev : Q * call_outcome * Q) : Prop :=
  exists e, snd (fst ev) = Raises e /\ isinstance e expected = false.

(** ** ConnectionPool, further *)

(** Whether the cleanup at [current_time] takes the record. *)
Definition is_expired (p : Pool.ConnectionPool) (current_time : Q)
    (c : Pool.ConnectionInfo) : bool :=
  if Qlt_le_dec (Pool.idle_timeout p) (current_time - Pool.last_used c)
  then true else false.

(** Every record is filed under its own [id], and no key occurs twice. *)
Definition pool_keys_ok (p : Pool.ConnectionPool) : Prop :=
  NoDup (PyDict.keys (Pool._connections p))
  /\ Forall (fun kv => Pool.id (snd kv) = fst kv) (Pool._connections p).

(** ** HealthChecker, further *)



(** ** ResourceManager *)

(** What every reachable manager satisfies: no name is filed twice, the
    resources and the metadata have the same names, and no reference count is
    negative. *)
Definition manager_inv (rm : Resource.ResourceManager) : Prop :=
  NoDup (PyDict.keys (Resource._resources rm))
  /\ NoDup (PyDict.keys (Resource._resource_metadata rm))
  /\ (forall name, PyDict.mem (Resource._resources rm) name
                   = PyDict.mem (Resource._resource_metadata rm) name)
  /\ Forall (fun kv => 0 <= Resource.ref_count (snd kv)) (Resource._resource_metadata rm).

Section ResourceExamples.
Import Resource.

(** A manager with a socket that is in use and a log file that is not. *)
Definition close_ok (_ : pyval) : call_outcome := Returns PyNone.
Definition close_fails (_ : pyval) : call_outcome := Raises (RuntimeError "already closed").

Definition two_resources : ResourceManager :=
  fst (get_resource
         (register_resource
            (register_resource init "log" (PyStr "run.log") (Some close_fails) 0)
            "socket" (PyObj true "socket") (Some close_ok) 10)
         "socket").

End ResourceExamples.

(** * Properties *)

(** ** Numbers *)

Lemma py_min_Qmin (a b : Q) : py_min a b = Qmin a b.
Proof.
  unfold py_min, Qmin, GenericMinMax.gmin.
  destruct (Qlt_le_dec b a) as [Hlt|Hle].
  - apply Qgt_alt in Hlt. now rewrite Hlt.
  - apply Qle_alt in Hle. destruct (a ?= b)%Q eqn:E; try reflexivity.
    now elim Hle.
Qed.

Lemma py_min_nonneg (a b : Q) : (0 <= a)%Q -> (0 <= b)%Q -> (0 <= py_min a b)%Q.
Proof. intros Ha Hb. unfold py_min. now destruct (Qlt_le_dec b a). Qed.

Lemma uniform_jitter_range (u : Q) :
  (0 <= u)%Q -> (u < 1)%Q ->
  (1 # 10 <= uniform (1 # 10) (3 # 10) u)%Q /\ (uniform (1 # 10) (3 # 10) u < 3 # 10)%Q.
Proof.
  destruct u as [n d]. unfold uniform, Qle, Qlt, Qplus, Qminus, Qmult, Qopp.
  simpl. intros H0 H1. split; lia.
Qed.

(** ** RetryManager *)

Section RetryProperties.
Import Retry.

Lemma float_of_int_in_range n :
  float_overflows (inject_Z n) = false -> float_of_int n = inl (inject_Z n).
Proof. intros H. unfold float_of_int. now rewrite H. Qed.

Lemma float_pow_in_range x n :
  float_overflows (inject_Z n) = false -> float_overflows (x ^ n) = false ->
  float_pow x n = inl (x ^ n)%Q.
Proof. intros Hn Hp. unfold float_pow. now rewrite (float_of_int_in_range n Hn), Hp. Qed.

(** Within the doubles the strategy gives the delay of the specification. *)
Lemma strategy_delay_in_range cfg i :
  delay_in_range cfg i ->
  exists d, strategy_delay cfg i = inl d /\ py_min d (max_delay cfg) = clamped_delay cfg i.
Proof.
  unfold delay_in_range, strategy_delay, clamped_delay. intros H.
  destruct (strategy cfg).
  - eexists. split; [reflexivity | apply py_min_Qmin].
  - destruct H as [Hn Hp]. rewrite (float_pow_in_range _ _ Hn Hp).
    eexists. split; [reflexivity | apply py_min_Qmin].
  - rewrite (float_of_int_in_range _ H).
    eexists. split; [reflexivity | apply py_min_Qmin].
  - eexists. split; [reflexivity | apply py_min_Qmin].
Qed.

(** Beyond the doubles the strategy raises [OverflowError]. *)
Lemma strategy_delay_out_of_range cfg i :
  ~ delay_in_range cfg i -> exists msg, strategy_delay cfg i = inr (OverflowError msg).
Proof.
  unfold delay_in_range, strategy_delay, float_pow, float_of_int. intros H.
  destruct (strategy cfg); try (now elim H).
  - destruct (float_overflows (inject_Z (Z.of_nat i))); [eauto|].
    destruct (float_overflows (backoff_factor cfg ^ Z.of_nat i)); [eauto|].
    now elim H.
  - destruct (float_overflows (inject_Z (Z.of_nat i + 1))); [eauto|]. now elim H.
Qed.

Lemma delay_in_range_dec cfg i : delay_in_range cfg i \/ ~ delay_in_range cfg i.
Proof.
  unfold delay_in_range. destruct (strategy cfg); auto.
  - destruct (float_overflows (inject_Z (Z.of_nat i)));
      destruct (float_overflows (backoff_factor cfg ^ Z.of_nat i));
      intuition congruence.
  - destruct (float_overflows (inject_Z (Z.of_nat i + 1))); intuition congruence.
Qed.

Lemma calculate_delay_no_jitter cfg i u :
  jitter cfg = false -> delay_in_range cfg i ->
  _calculate_delay cfg i u = inl (clamped_delay cfg i).
Proof.
  intros Hj Hr. destruct (strategy_delay_in_range cfg i Hr) as (d & Hd & Hc).
  unfold _calculate_delay. now rewrite Hd, Hj, Hc.
Qed.

Lemma calculate_delay_jitter cfg i u :
  jitter cfg = true -> delay_in_range cfg i ->
  _calculate_delay cfg i u =
    inl (clamped_delay cfg i + uniform (1 # 10) (3 # 10) u * clamped_delay cfg i)%Q.
Proof.
  intros Hj Hr. destruct (strategy_delay_in_range cfg i Hr) as (d & Hd & Hc).
  unfold _calculate_delay. now rewrite Hd, Hj, Hc.
Qed.

Lemma calculate_delay_out_of_range cfg i u :
  ~ delay_in_range cfg i -> exists msg, _calculate_delay cfg i u = inr (OverflowError msg).
Proof.
  intros Hr. destruct (strategy_delay_out_of_range cfg i Hr) as (msg & Hd).
  exists msg. unfold _calculate_delay. now rewrite Hd.
Qed.

(** A delay is returned exactly within the doubles. *)
Lemma calculate_delay_returns cfg i u d :
  _calculate_delay cfg i u = inl d -> delay_in_range cfg i.
Proof.
  intros H. destruct (delay_in_range_dec cfg i) as [Hr|Hr]; [exact Hr|].
  destruct (calculate_delay_out_of_range cfg i u Hr) as (msg & Hm). congruence.
Qed.

Lemma clamped_delay_nonneg cfg i : valid_config cfg -> (0 <= clamped_delay cfg i)%Q.
Proof.
  intros (_ & Hb & Hm & Hf). unfold clamped_delay.
  rewrite <- py_min_Qmin. apply py_min_nonneg; [|exact Hm].
  destruct (strategy cfg); try exact Hb.
  - apply Qmult_le_0_compat; [exact Hb | now apply Qpower_0_le].
  - apply Qmult_le_0_compat; [exact Hb |]. unfold Qle. simpl. lia.
Qed.

Lemma calculate_delay_nonneg cfg i u d :
  valid_config cfg -> (0 <= u)%Q -> _calculate_delay cfg i u = inl d -> (0 <= d)%Q.
Proof.
  intros Hok Hu Hd. pose proof (clamped_delay_nonneg cfg i Hok) as Hc.
  pose proof (calculate_delay_returns cfg i u d Hd) as Hr.
  destruct (jitter cfg) eqn:Hj.
  - rewrite (calculate_delay_jitter _ _ _ Hj Hr) in Hd. injection Hd as <-.
    apply (Qle_trans _ (0 + 0)); [discriminate|].
    apply Qplus_le_compat; [exact Hc|].
    apply Qmult_le_0_compat; [|exact Hc].
    destruct u as [n dn]. unfold uniform, Qle, Qplus, Qminus, Qmult, Qopp in *.
    simpl in *. lia.
  - rewrite (calculate_delay_no_jitter _ _ _ Hj Hr) in Hd. now injection Hd as <-.
Qed.

Lemma sleep_nonneg (d : Q) : (0 <= d)%Q -> sleep d = None.
Proof.
  intros H. unfold sleep. destruct (Qlt_le_dec d 0) as [Hlt|]; [|reflexivity].
  exfalso. exact (Qlt_not_le _ _ Hlt H).
Qed.

Lemma retried_stat_0 s : retried_stat 0 s = s.
Proof. destruct s. unfold retried_stat. simpl. f_equal; lia. Qed.

Lemma stat_of_bump f name st : stat_of name (bump f name st) = f (stat_of name st).
Proof. unfold stat_of, bump. now rewrite lookup_insert_eq. Qed.

Lemma lookup_bump_ne f name n (st : gmap string stat) :
  n <> name -> bump f name st !! n = st !! n.
Proof. intros Hne. unfold bump. now rewrite lookup_insert_ne. Qed.

Section RetryLoop.
Variable cfg : RetryConfig.
Variable name : string.
Variable func : nat -> call_outcome.
Variable rnd : nat -> Q.
Hypothesis cfg_ok : valid_config cfg.
Hypothesis rnd_ok : forall i, (0 <= rnd i)%Q /\ (rnd i < 1)%Q.

(** A caught failure that is not the last attempt is slept on and retried,
    when its delay is within the doubles. *)
Lemma attempts_retry rem a r e :
  func a = Raises e -> isinstance_any e (exceptions cfg) = true ->
  Z.of_nat a < max_retries cfg ->
  delay_in_range cfg a ->
  exists d,
    _calculate_delay cfg a (rnd a) = inl d
    /\ attempts cfg name func rnd (S rem) a r
       = attempts cfg name func rnd rem (S a)
           {| stats := bump inc_retries name (bump inc_failure name (stats r));
              calls := S (calls r);
              sleeps := sleeps r ++ [d];
              last_exception := Some e |}.
Proof.
  intros Hf Hm Hlt Hr.
  assert (Hd : exists d, _calculate_delay cfg a (rnd a) = inl d).
  { destruct (jitter cfg) eqn:Hj; eexists;
      [now apply calculate_delay_jitter | now apply calculate_delay_no_jitter]. }
  destruct Hd as (d & Hd). exists d. split; [exact Hd|].
  simpl. rewrite Hf, Hm.
  apply Z.ltb_lt in Hlt. rewrite Hlt, Hd.
  rewrite sleep_nonneg; [reflexivity|].
  apply (calculate_delay_nonneg cfg a (rnd a)); [exact cfg_ok | apply rnd_ok | exact Hd].
Qed.

(** [j] caught failures in a row, none of them the last attempt, with the
    delays that were slept. *)
Lemma attempts_retry_prefix j : forall rem a r,
  (forall i, (a <= i < a + j)%nat -> fails_retryable cfg func i) ->
  (forall i, (a <= i < a + j)%nat -> delay_in_range cfg i) ->
  Z.of_nat (a + j) <= max_retries cfg ->
  exists r',
    attempts cfg name func rnd (j + rem) a r = attempts cfg name func rnd rem (a + j) r'
    /\ calls r' = (calls r + j)%nat
    /\ map inl (sleeps r')
       = map inl (sleeps r) ++ map (fun i => _calculate_delay cfg i (rnd i)) (seq a j)
    /\ stat_of name (stats r') = retried_stat j (stat_of name (stats r))
    /\ (forall n, n <> name -> stats r' !! n = stats r !! n)
    /\ (j = O -> r' = r).
Proof.
  induction j as [|j IH]; intros rem a r Hfail Hrange Hle.
  - exists r. rewrite !Nat.add_0_r, retried_stat_0, app_nil_r. simpl.
    repeat split; reflexivity.
  - destruct (Hfail a ltac:(lia)) as (e & Hf & Hm).
    change (S j + rem)%nat with (S (j + rem)).
    destruct (attempts_retry (j + rem) a r e Hf Hm ltac:(lia) (Hrange a ltac:(lia)))
      as (d & Hd & Hstep).
    rewrite Hstep.
    edestruct (IH rem (S a)) as (r' & Heq & Hc & Hs & Hst & Hoth & _);
      [intros i Hi; apply Hfail; lia | intros i Hi; apply Hrange; lia | lia |].
    exists r'. rewrite Heq. simpl in *.
    replace (a + S j)%nat with (S a + j)%nat by lia.
    split; [reflexivity|]. split; [lia|].
    split; [rewrite Hs, map_app, <- app_assoc; simpl; now rewrite Hd|].
    split.
    + rewrite Hst, !stat_of_bump. unfold retried_stat, inc_retries, inc_failure.
      simpl. f_equal; lia.
    + split; [|discriminate]. intros n Hn. rewrite Hoth by exact Hn.
      now rewrite !lookup_bump_ne.
Qed.

End RetryLoop.

(** With [max_retries = n >= 0], durations that are not negative and delays
    within the doubles, a function that raises a retryable exception at every
    invocation is invoked exactly [n + 1] times, and [execute] then raises
    the exception of the last invocation. *)
Lemma execute_exhausts_retries_in_range (cfg : RetryConfig) (name : string)
    (func : nat -> call_outcome) (rnd : nat -> Q) (st : gmap string stat) :
  valid_config cfg ->
  (forall i, (0 <= rnd i)%Q /\ (rnd i < 1)%Q) ->
  (forall i, Z.of_nat i < max_retries cfg -> delay_in_range cfg i) ->
  (forall i, fails_retryable cfg func i) ->
  exists e,
    func (Z.to_nat (max_retries cfg)) = Raises e
    /\ snd (execute cfg name func rnd st) = Raises e
    /\ Z.of_nat (calls (fst (execute cfg name func rnd st))) = max_retries cfg + 1.
Proof.
  intros Hok Hrnd Hrange Hfail. pose proof Hok as (Hn & _).
  set (m := Z.to_nat (max_retries cfg)).
  destruct (Hfail m) as (e & Hf & Hm). exists e. split; [exact Hf|].
  unfold execute.
  replace (Z.to_nat (max_retries cfg + 1)) with (m + 1)%nat by (subst m; lia).
  destruct (attempts_retry_prefix cfg name func rnd Hok Hrnd m 1%nat O (start st))
    as (r' & Heq & Hc & _);
    [intros i _; apply Hfail | intros i Hi; apply Hrange; subst m; lia | subst m; lia |].
  rewrite Heq. simpl. rewrite Hf, Hm.
  replace (Z.of_nat m <? max_retries cfg) with false
    by (symmetry; apply Z.ltb_ge; subst m; lia).
  simpl. split; [reflexivity|]. rewrite Hc. simpl. subst m. lia.
Qed.

(** C3: the default configuration with jitter off and [max_retries = 1100],
    and a function that raises [RuntimeError] at every invocation. The power
    [2.0 ** 1024] of the delay after the attempt 1024 raises [OverflowError]
    in the handler: [execute] has invoked the function 1025 times, not 1101,
    and raises that error, not the one of the function. Likewise with
    [max_retries = 3] and [backoff_factor = 1e200]: the power of the delay
    after the attempt 2 overflows, after 3 invocations, not 4. *)
Lemma execute_overflow_cuts_retries :
  (max_retries long_retry_config = 1100
   /\ valid_config long_retry_config
   /\ (forall i, fails_retryable long_retry_config always_down i)
   /\ Z.of_nat (calls (fst (execute long_retry_config "probe" always_down (fun _ => 0%Q) ∅)))
      = 1025
   /\ (exists msg,
         snd (execute long_retry_config "probe" always_down (fun _ => 0%Q) ∅)
         = Raises (OverflowError msg))
   /\ snd (execute long_retry_config "probe" always_down (fun _ => 0%Q) ∅)
      <> always_down 1100)
  /\ (max_retries steep_config = 3
      /\ valid_config steep_config
      /\ (forall i, fails_retryable steep_config always_down i)
      /\ Z.of_nat (calls (fst (execute steep_config "probe" always_down (fun _ => 0%Q) ∅)))
         = 3
      /\ (exists msg,
            snd (execute steep_config "probe" always_down (fun _ => 0%Q) ∅)
            = Raises (OverflowError msg))
      /\ snd (execute steep_config "probe" always_down (fun _ => 0%Q) ∅)
         <> always_down 3).
Proof.
  assert (Hfail : forall cfg, exceptions cfg = ["Exception"]%string ->
                    forall i, fails_retryable cfg always_down i).
  { intros cfg Hc i. exists (RuntimeError "device offline"). rewrite Hc.
    split; reflexivity. }
  split.
  - split; [reflexivity|]. split; [repeat split; discriminate|].
    split; [now apply Hfail|].
    assert (H : execute long_retry_config "probe" always_down (fun _ => 0%Q) ∅
                = (fst (execute long_retry_config "probe" always_down (fun _ => 0%Q) ∅),
                   Raises (OverflowError "(34, 'Numerical result out of range')"))).
    { vm_compute. reflexivity. }
    split; [vm_compute; reflexivity|].
    rewrite H. simpl. split; [eauto | discriminate].
  - split; [reflexivity|]. split; [repeat split; discriminate|].
    split; [now apply Hfail|].
    assert (H : execute steep_config "probe" always_down (fun _ => 0%Q) ∅
                = (fst (execute steep_config "probe" always_down (fun _ => 0%Q) ∅),
                   Raises (OverflowError "(34, 'Numerical result out of range')"))).
    { vm_compute. reflexivity. }
    split; [vm_compute; reflexivity|].
    rewrite H. simpl. split; [eauto | discriminate].
Qed.

(** C7: with jitter off, the exponential strategy and the default
    [base_delay = 1.0], [backoff_factor = 2.0], [max_delay = 60.0], the delay
    after the attempt 1024 is not [min(1.0 * 2.0^1024, 60.0) = 60.0]:
    the power raises [OverflowError] before the [min]. After the attempt 1023
    the delay is the clamped 60.0. *)
Lemma calculate_delay_overflow_at_1024 (u : Q) :
  jitter long_retry_config = false
  /\ strategy long_retry_config = EXPONENTIAL
  /\ (exists msg, _calculate_delay long_retry_config 1024 u = inr (OverflowError msg))
  /\ Qmin (base_delay long_retry_config * backoff_factor long_retry_config ^ 1024)%Q
          (max_delay long_retry_config) = 60%Q
  /\ _calculate_delay long_retry_config 1023 u = inl 60%Q.
Proof.
  split; [reflexivity|]. split; [reflexivity|]. split; [|split].
  - eexists. vm_compute. reflexivity.
  - vm_compute. reflexivity.
  - vm_compute. reflexivity.
Qed.

(** C8: an exception that the configured types do not match leaves
    [execute] at once. When it comes at invocation [k], after [k] retried
    failures, [execute] raises it, has invoked the function [k + 1] times and
    slept [k] times, and the counters of the function hold the [k] earlier
    failures and retries only; when it comes first, the statistics are
    untouched. The [k] earlier failures are retried when their delays are
    within the doubles. *)
Theorem execute_propagates_unmatched (cfg : RetryConfig) (name : string)
    (func : nat -> call_outcome) (rnd : nat -> Q) (st : gmap string stat)
    (k : nat) (e : pyexn) :
  valid_config cfg ->
  (forall i, (0 <= rnd i)%Q /\ (rnd i < 1)%Q) ->
  Z.of_nat k <= max_retries cfg ->
  (forall i, (i < k)%nat -> fails_retryable cfg func i) ->
  (forall i, (i < k)%nat -> delay_in_range cfg i) ->
  func k = Raises e ->
  isinstance_any e (exceptions cfg) = false ->
  let r := fst (execute cfg name func rnd st) in
  snd (execute cfg name func rnd st) = Raises e
  /\ calls r = S k
  /\ length (sleeps r) = k
  /\ stat_of name (stats r) = retried_stat k (stat_of name st)
  /\ (forall n, n <> name -> stats r !! n = st !! n)
  /\ (k = O -> stats r = st).
Proof.
  intros Hok Hrnd Hk Hfail Hrange Hf Hm. unfold execute.
  set (m := Z.to_nat (max_retries cfg)).
  replace (Z.to_nat (max_retries cfg + 1)) with (k + S (m - k))%nat by (subst m; lia).
  destruct (attempts_retry_prefix cfg name func rnd Hok Hrnd k (S (m - k)) O (start st))
    as (r' & Heq & Hc & Hs & Hst & Hoth & H0);
    [intros i Hi; apply Hfail; lia | intros i Hi; apply Hrange; lia | lia |].
  apply (f_equal (@length _)) in Hs.
  rewrite length_app, !length_map, length_seq in Hs.
  rewrite Heq. simpl. rewrite Hf, Hm. simpl.
  repeat split; try assumption; try (simpl in *; lia).
  intros ->. now rewrite (H0 eq_refl).
Qed.

Lemma fixed_config_valid : valid_config fixed_config.
Proof. repeat split; discriminate. Qed.

Lemma execute_propagates_unmatched_witness :
  let r := fst (execute fixed_config "probe" interrupted (fun _ => 0%Q) ∅) in
  snd (execute fixed_config "probe" interrupted (fun _ => 0%Q) ∅) = Raises KeyboardInterrupt
  /\ calls r = 2%nat
  /\ length (sleeps r) = 1%nat
  /\ stat_of "probe" (stats r) = retried_stat 1 (stat_of "probe" ∅)
  /\ (forall n, n <> "probe"%string -> stats r !! n = (∅ : gmap string stat) !! n)
  /\ (1%nat = O -> stats r = ∅).
Proof.
  apply (execute_propagates_unmatched fixed_config "probe" interrupted (fun _ => 0%Q) ∅
           1 KeyboardInterrupt).
  - exact fixed_config_valid.
  - intros i. split; [discriminate | reflexivity].
  - simpl. lia.
  - intros i Hi. assert (i = O) as -> by lia.
    exists (RuntimeError "device offline"). split; reflexivity.
  - intros i Hi. exact I.
  - reflexivity.
  - reflexivity.
Defined.

End RetryProperties.

(** ** CircuitBreaker *)

Section BreakerProperties.
Import Breaker.

Lemma call_config cb now func nf :
  failure_threshold (after (call cb now func nf)) = failure_threshold cb
  /\ recovery_timeout (after (call cb now func nf)) = recovery_timeout cb
  /\ expected_exception (after (call cb now func nf)) = expected_exception cb.
Proof.
  unfold call, gate_call.
  destruct (_state cb) eqn:Hs; try destruct (Qlt_le_dec _ _); simpl; auto;
    destruct func as [v|e]; simpl;
    try destruct (isinstance e _); simpl;
    unfold _on_success, _on_failure; simpl; try rewrite Hs;
    repeat match goal with
           | |- context [if ?c then _ else _] => destruct c
           end; simpl; auto.
Qed.








(** A closed breaker below its threshold stays closed through failures that
    do not reach the threshold, and counts them. *)
Lemma calls_below_threshold expected events : forall cb,
  expected_exception cb = expected ->
  _state cb = CLOSED ->
  Forall (expected_failure expected) events ->
  _failure_count cb + Z.of_nat (length events) < failure_threshold cb ->
  let cb' := fst (calls cb events) in
  _state cb' = CLOSED
  /\ _failure_count cb' = _failure_count cb + Z.of_nat (length events)
  /\ failure_threshold cb' = failure_threshold cb
  /\ expected_exception cb' = expected
  /\ Forall (fun c => invoked c = true) (snd (calls cb events)).
Proof.
  induction events as [|[[now func] nf] events IH]; intros cb He Hs Hall Hlt.
  - simpl. repeat split; auto; lia.
  - apply Forall_cons_iff in Hall as [(e & Hf & Hm) Hall]. simpl in Hf. subst func.
    simpl in Hlt |- *.
    set (c := call cb now (Raises e) nf).
    assert (Hc : after c = update cb CLOSED (_failure_count cb + 1) nf (_success_count cb)
                 /\ invoked c = true).
    { subst c. unfold call, gate_call. rewrite Hs, He, Hm. simpl.
      unfold _on_failure.
      replace (failure_threshold cb <=? _failure_count cb + 1) with false
        by (symmetry; apply Z.leb_gt; lia).
      now rewrite Hs. }
    destruct Hc as [Hafter Hinv].
    destruct (calls (after c) events) as [cb' cs] eqn:Hcalls.
    specialize (IH (after c)). rewrite Hcalls in IH. simpl in IH |- *.
    rewrite Hafter in IH. simpl in IH.
    destruct IH as (H1 & H2 & H3 & H4 & H5); auto; try lia.
    repeat split; auto; try lia.
Qed.



Lemma reachable_calls threshold recovery expected events : forall cb,
  reachable threshold recovery expected cb ->
  reachable threshold recovery expected (fst (calls cb events)).
Proof.
  induction events as [|[[now func] nf] events IH]; intros cb Hr; [exact Hr|].
  simpl. specialize (IH _ (reach_call _ _ _ cb now func nf Hr)).
  now destruct (calls (after (call cb now func nf)) events).
Qed.

Lemma opened_reachable : reachable 3 60 "Exception" opened.
Proof. apply reachable_calls, reach_init. Qed.


End BreakerProperties.

(** ** Dictionaries *)

Section DictProperties.
Context {V : Type}.
Implicit Types (d : PyDict.t V) (k : string) (v : V).

Lemma dict_length_set_le d k v : (length (PyDict.set d k v) <= S (length d))%nat.
Proof.
  induction d as [|[k' v'] d IH]; simpl; [lia|].
  destruct (String.eqb k' k); simpl; lia.
Qed.

Lemma dict_length_set_mem d k v :
  PyDict.mem d k = true -> length (PyDict.set d k v) = length d.
Proof.
  unfold PyDict.mem. induction d as [|[k' v'] d IH]; simpl; [discriminate|].
  destruct (String.eqb k' k); simpl; [reflexivity|].
  intros H. f_equal. apply IH, H.
Qed.

Lemma dict_length_del_le d k : (length (PyDict.del d k) <= length d)%nat.
Proof.
  induction d as [|[k' v'] d IH]; simpl; [lia|].
  destruct (String.eqb k' k); simpl; lia.
Qed.

Lemma dict_find_mem (f : string * V -> bool) d k v :
  List.find f d = Some (k, v) -> PyDict.mem d k = true.
Proof.
  unfold PyDict.mem. induction d as [|[k' v'] d IH]; simpl; [discriminate|].
  destruct (f (k', v')).
  - intros [= -> ->]. now rewrite String.eqb_refl.
  - intros H. destruct (String.eqb k' k); [reflexivity | apply IH, H].
Qed.

Lemma dict_Forall_set (P : string * V -> Prop) d k v :
  P (k, v) -> Forall P d -> Forall P (PyDict.set d k v).
Proof.
  intros Hv. induction 1 as [|[k' v'] d Hx Hd IH]; simpl.
  - constructor; [exact Hv | constructor].
  - destruct (String.eqb k' k) eqn:E; constructor; auto.
    apply String.eqb_eq in E. now subst k'.
Qed.

Lemma dict_keys_set d k v :
  PyDict.keys (PyDict.set d k v)
  = if PyDict.mem d k then PyDict.keys d else PyDict.keys d ++ [k].
Proof.
  unfold PyDict.mem, PyDict.keys. induction d as [|[k' v'] d IH]; simpl; [reflexivity|].
  destruct (String.eqb k' k) eqn:E; simpl; [reflexivity|].
  rewrite IH. now destruct (PyDict.get d k).
Qed.

Lemma dict_mem_keys d k : PyDict.mem d k = true <-> k ∈ PyDict.keys d.
Proof.
  unfold PyDict.mem, PyDict.keys. induction d as [|[k' v'] d IH]; simpl.
  - split; [discriminate | intros H; inversion H].
  - rewrite elem_of_cons. destruct (String.eqb k' k) eqn:E.
    + apply String.eqb_eq in E. split; auto.
    + apply String.eqb_neq in E. rewrite IH. split; [auto | intros [?|?]; [congruence|auto]].
Qed.

Lemma dict_keys_del_incl d k k' :
  k' ∈ PyDict.keys (PyDict.del d k) -> k' ∈ PyDict.keys d.
Proof.
  unfold PyDict.keys. induction d as [|[k0 v0] d IH]; simpl; [auto|].
  destruct (String.eqb k0 k); simpl; rewrite !elem_of_cons; [auto | intros [?|?]; auto].
Qed.

Lemma dict_NoDup_set d k v :
  NoDup (PyDict.keys d) -> NoDup (PyDict.keys (PyDict.set d k v)).
Proof.
  intros Hnd. rewrite dict_keys_set. destruct (PyDict.mem d k) eqn:E; [exact Hnd|].
  apply NoDup_app. split; [exact Hnd|]. split; [|apply NoDup_singleton].
  intros x Hx Hk. apply list_elem_of_singleton in Hk. subst x.
  apply dict_mem_keys in Hx. congruence.
Qed.

Lemma dict_NoDup_del d k :
  NoDup (PyDict.keys d) ->
  NoDup (PyDict.keys (PyDict.del d k)) /\ k ∉ PyDict.keys (PyDict.del d k).
Proof.
  unfold PyDict.keys. induction d as [|[k0 v0] d IH]; simpl.
  - intros _. split; [apply NoDup_nil_2 | apply not_elem_of_nil].
  - intros Hnd. apply NoDup_cons in Hnd as [Hnin Hnd].
    destruct (String.eqb k0 k) eqn:E.
    + apply String.eqb_eq in E. subst k0. split; [exact Hnd | exact Hnin].
    + apply String.eqb_neq in E. destruct (IH Hnd) as [H1 H2]. simpl. split.
      * apply NoDup_cons. split; [|exact H1].
        intros Hin. apply Hnin. exact (dict_keys_del_incl d k k0 Hin).
      * rewrite elem_of_cons. intros [?|?]; [congruence | auto].
Qed.

Lemma dict_Forall_del (P : string * V -> Prop) d k :
  Forall P d -> Forall P (PyDict.del d k).
Proof.
  induction 1 as [|[k' v'] d Hx Hd IH]; simpl; [constructor|].
  destruct (String.eqb k' k); [exact Hd | constructor; auto].
Qed.

Lemma dict_Forall_get (P : V -> Prop) d k v :
  Forall (fun kv => P (snd kv)) d -> PyDict.get d k = Some v -> P v.
Proof.
  induction 1 as [|[k' v'] d Hx Hd IH]; simpl; [discriminate|].
  destruct (String.eqb k' k); [intros [= <-]; exact Hx | exact IH].
Qed.

End DictProperties.

(** ** ConnectionPool *)

Section PoolProperties.
Import Pool.

Lemma first_active_none_all_active d :
  Forall (fun kv => is_active (snd kv) = true) d -> first_active d = None -> d = [].
Proof.
  unfold first_active. destruct 1 as [|[k c] d Hx Hd]; simpl; [reflexivity|].
  simpl in Hx. now rewrite Hx.
Qed.

Lemma first_active_is_active d k c :
  first_active d = Some (k, c) -> is_active c = true.
Proof. intros H. apply find_some in H as [_ H]. exact H. Qed.

Lemma cleanup_fold l : forall p,
  max_connections (fold_left _remove_connection l p) = max_connections p
  /\ (length (_connections (fold_left _remove_connection l p)) <= length (_connections p))%nat
  /\ (all_active p -> all_active (fold_left _remove_connection l p)).
Proof.
  induction l as [|c l IH]; intros p; simpl; [auto|].
  destruct (IH (_remove_connection p c)) as (Hm & Hl & Ha).
  rewrite Hm. unfold _remove_connection in *.
  destruct (PyDict.mem (_connections p) c); simpl in *; [|auto].
  repeat split; auto.
  - pose proof (dict_length_del_le (_connections p) c). lia.
  - intros H. apply Ha. now apply dict_Forall_del.
Qed.

Lemma step_max_connections p o : max_connections (step p o) = max_connections p.
Proof.
  destruct o as [t1 t2 t3|c t|c|t|]; simpl; try reflexivity.
  - unfold _acquire_connection. destruct (first_active _) as [[k c]|]; [reflexivity|].
    now destruct (_ <? _).
  - unfold _release_connection. now destruct (PyDict.get _ _).
  - unfold _remove_connection. now destruct (PyDict.mem _ _).
  - apply cleanup_fold.
Qed.

Lemma step_pool_size p o :
  pool_size p <= max_connections p -> pool_size (step p o) <= max_connections p.
Proof.
  unfold pool_size. intros H. destruct o as [t1 t2 t3|c t|c|t|]; simpl.
  - unfold _acquire_connection. destruct (first_active _) as [[k c]|] eqn:Hf; simpl.
    + apply dict_find_mem in Hf. now rewrite dict_length_set_mem.
    + destruct (_ <? _) eqn:Hlt; simpl; [|exact H]. apply Z.ltb_lt in Hlt.
      pose proof (dict_length_set_le (_connections p) (conn_id_of t1 (self_id p))
                    {| id := conn_id_of t1 (self_id p); created_at := t2;
                       last_used := t3; is_active := true; metadata := ∅ |}).
      lia.
  - unfold _release_connection. destruct (PyDict.get _ _) eqn:Hg; simpl; [|exact H].
    rewrite dict_length_set_mem; [exact H|]. unfold PyDict.mem. now rewrite Hg.
  - unfold _remove_connection. destruct (PyDict.mem _ _); simpl; [|exact H].
    pose proof (dict_length_del_le (_connections p) c). lia.
  - destruct (cleanup_fold (expired_connections p t) p) as (_ & Hl & _).
    unfold _cleanup_expired_connections. lia.
  - lia.
Qed.

Lemma reachable_max_connections max_conn ct idle cleanup oid p :
  reachable max_conn ct idle cleanup oid p -> max_connections p = max_conn.
Proof. induction 1; [reflexivity | now rewrite step_max_connections]. Qed.

(** C4: the pool never holds more than [max_connections] records. Every
    step the pool takes under its lock (acquire, release, the removal and the
    sweep of the cleanup, close) keeps the number of records within
    [max_connections]; so does every pool reachable from a new one whose
    [max_connections] is not negative; and an acquire on a pool at capacity
    with no active record raises the pool-full error and creates nothing. *)
Theorem pool_capacity :
  (forall p o,
     pool_size p <= max_connections p ->
     pool_size (step p o) <= max_connections (step p o))
  /\ (forall max_conn ct idle cleanup oid p,
        0 <= max_conn ->
        reachable max_conn ct idle cleanup oid p ->
        pool_size p <= max_conn)
  /\ (forall p t1 t2 t3,
        first_active (_connections p) = None ->
        max_connections p <= pool_size p ->
        _acquire_connection p t1 t2 t3 = (p, inr (pool_full p))).
Proof.
  repeat apply conj.
  - intros p o H. rewrite step_max_connections. now apply step_pool_size.
  - intros max_conn ct idle cleanup oid p H0. induction 1 as [|p o Hr IH].
    + exact H0.
    + rewrite <- (reachable_max_connections _ _ _ _ _ _ Hr) in IH |- *.
      now apply step_pool_size.
  - intros p t1 t2 t3 Hf Hfull. unfold _acquire_connection. rewrite Hf.
    unfold pool_size in Hfull.
    replace (_ <? _) with false by (symmetry; apply Z.ltb_ge; exact Hfull).
    reflexivity.
Qed.

Lemma touch_active c t : is_active (touch c t) = is_active c.
Proof. reflexivity. Qed.

(** No step clears [is_active]. *)
Lemma step_all_active p o : all_active p -> all_active (step p o).
Proof.
  unfold all_active. intros H. destruct o as [t1 t2 t3|c t|c|t|]; simpl.
  - unfold _acquire_connection. destruct (first_active _) as [[k c]|] eqn:Hf; simpl.
    + apply dict_Forall_set; [|exact H]. simpl.
      exact (first_active_is_active _ _ _ Hf).
    + destruct (_ <? _); simpl; [|exact H]. now apply dict_Forall_set.
  - unfold _release_connection. destruct (PyDict.get _ _) as [c0|] eqn:Hg; simpl; [|exact H].
    apply dict_Forall_set; [|exact H]. simpl.
    exact (dict_Forall_get (fun c => is_active c = true) _ _ _ H Hg).
  - unfold _remove_connection. destruct (PyDict.mem _ _); simpl; [|exact H].
    now apply dict_Forall_del.
  - now apply cleanup_fold.
  - constructor.
Qed.

(** With every record active, no step takes the pool beyond one record. *)
Lemma step_at_most_one p o :
  all_active p -> (length (_connections p) <= 1)%nat ->
  (length (_connections (step p o)) <= 1)%nat.
Proof.
  intros Ha Hl. destruct o as [t1 t2 t3|c t|c|t|]; simpl.
  - unfold _acquire_connection. destruct (first_active _) as [[k c]|] eqn:Hf; simpl.
    + apply dict_find_mem in Hf. now rewrite dict_length_set_mem.
    + rewrite (first_active_none_all_active _ Ha Hf).
      destruct (_ <? _); simpl; lia.
  - unfold _release_connection. destruct (PyDict.get _ _) eqn:Hg; simpl; [|exact Hl].
    rewrite dict_length_set_mem; [exact Hl|]. unfold PyDict.mem. now rewrite Hg.
  - unfold _remove_connection. destruct (PyDict.mem _ _); simpl; [|exact Hl].
    pose proof (dict_length_del_le (_connections p) c). lia.
  - destruct (cleanup_fold (expired_connections p t) p) as (_ & Hle & _).
    unfold _cleanup_expired_connections. lia.
  - lia.
Qed.

Lemma reachable_single max_conn ct idle cleanup oid p :
  reachable max_conn ct idle cleanup oid p ->
  all_active p /\ (length (_connections p) <= 1)%nat.
Proof.
  induction 1 as [|p o _ [Ha Hl]].
  - split; [constructor | simpl; lia].
  - split; [now apply step_all_active | now apply step_at_most_one].
Qed.

(** C10: no operation clears [is_active], so in every pool reachable from
    a new one every record is active and there is at most one record; an
    acquire on a pool that holds a record returns the id of that record and
    only refreshes its [last_used]; and with [max_connections >= 1] no acquire
    raises the pool-full error. *)
Theorem pool_records_stay_reusable (max_conn : Z) (ct idle cleanup : Q) (oid : Z)
    (p : ConnectionPool) :
  reachable max_conn ct idle cleanup oid p ->
  all_active p
  /\ (length (_connections p) <= 1)%nat
  /\ (forall o, all_active (step p o))
  /\ (forall t1 t2 t3 conn_id c rest,
        _connections p = (conn_id, c) :: rest ->
        rest = []
        /\ _acquire_connection p t1 t2 t3
           = (with_connections p [(conn_id, touch c t1)], inl conn_id))
  /\ (1 <= max_conn ->
      forall t1 t2 t3,
        exists conn_id, snd (_acquire_connection p t1 t2 t3) = inl conn_id).
Proof.
  intros Hr. destruct (reachable_single _ _ _ _ _ _ Hr) as [Ha Hl].
  pose proof (reachable_max_connections _ _ _ _ _ _ Hr) as Hm.
  repeat apply conj; auto.
  - intros o. now apply step_all_active.
  - intros t1 t2 t3 k c rest Hd.
    assert (rest = []) as -> by (rewrite Hd in Hl; destruct rest; [reflexivity|simpl in Hl; lia]).
    split; [reflexivity|].
    unfold all_active in Ha. rewrite Hd in Ha. apply Forall_cons_iff in Ha as [Hc _].
    simpl in Hc. unfold _acquire_connection, first_active. rewrite Hd. simpl.
    now rewrite Hc, String.eqb_refl.
  - intros H1 t1 t2 t3. unfold _acquire_connection.
    destruct (first_active _) as [[k c]|] eqn:Hf; simpl; [now exists k|].
    rewrite (first_active_none_all_active _ Ha Hf). simpl. rewrite Hm.
    replace (Z.of_nat 0 <? max_conn) with true by (symmetry; apply Z.ltb_lt; lia).
    eexists. reflexivity.
Qed.

Lemma used_pool_reachable : reachable 2 30 300 60 7 used_pool.
Proof. repeat apply reach_step. apply reach_init. Qed.

Lemma pool_capacity_witness :
  pool_size (step used_pool (Acquire 13 13 13)) <= 2
  /\ pool_size used_pool <= 2
  /\ _acquire_connection closed_pool 1 1 1 = (closed_pool, inr (pool_full closed_pool)).
Proof.
  destruct pool_capacity as (Hstep & Hreach & Hfull).
  split; [|split].
  - apply (Hstep used_pool (Acquire 13 13 13)). vm_compute. discriminate.
  - apply (Hreach 2 30%Q 300%Q 60%Q 7 used_pool); [lia | exact used_pool_reachable].
  - apply (Hfull closed_pool); [reflexivity | vm_compute; discriminate].
Defined.

Lemma pool_records_stay_reusable_witness :
  all_active used_pool
  /\ (length (_connections used_pool) <= 1)%nat
  /\ (exists c,
        _connections used_pool = [("conn_10000_7"%string, c)]
        /\ _acquire_connection used_pool 13 13 13
           = (with_connections used_pool [("conn_10000_7"%string, touch c 13)],
              inl "conn_10000_7"%string))
  /\ exists conn_id, snd (_acquire_connection used_pool 13 13 13) = inl conn_id.
Proof.
  destruct (pool_records_stay_reusable 2 30 300 60 7 used_pool used_pool_reachable)
    as (Ha & Hl & _ & Hre & Hok).
  split; [exact Ha|]. split; [exact Hl|]. split.
  - eexists. split; [reflexivity|]. apply (Hre 13%Q 13%Q 13%Q _ _ []). reflexivity.
  - apply Hok. lia.
Defined.

End PoolProperties.

(** ** HealthChecker *)

Section HealthProperties.
Import Health.
Context {World : Type}.
Implicit Types (hc : HealthChecker World) (w : World).





Lemma is_Some_insert (m : gmap string Z) (j k : string) (v : Z) :
  is_Some (m !! k) -> is_Some (<[j := v]> m !! k).
Proof.
  intros H. destruct (decide (j = k)) as [->|Hne].
  - rewrite lookup_insert_eq. eauto.
  - now rewrite lookup_insert_ne.
Qed.

Lemma check_one_ok w nm check tl :
  is_Some (failures tl !! nm) -> is_Some (recoveries tl !! nm) ->
  (exists b, _execute_check check w = inl b) ->
  exists tl',
    check_one w nm check tl = inl tl'
    /\ healthy_checks tl' = healthy_checks tl + (if passes w check then 1 else 0)
    /\ (forall k, is_Some (failures tl !! k) -> is_Some (failures tl' !! k))
    /\ (forall k, is_Some (recoveries tl !! k) -> is_Some (recoveries tl' !! k)).
Proof.
  intros [nf Hf] [nr Hr] [b Hb]. unfold check_one, passes. rewrite Hb.
  destruct b.
  - simpl. rewrite Hr. eexists. split; [reflexivity|]. simpl.
    repeat split; auto using is_Some_insert.
  - rewrite Hf. eexists. split; [reflexivity|]. simpl.
    repeat split; auto using is_Some_insert; lia.
Qed.

Lemma check_all_ok w checks : forall tl,
  tally_covers tl checks -> probes_contained w checks ->
  exists tl',
    check_all w checks tl = inl tl'
    /\ healthy_checks tl' = healthy_checks tl + passed w checks.
Proof.
  unfold passed.
  induction checks as [|[nm check] checks IH]; intros tl Hcov Hprobe.
  - exists tl. simpl. split; [reflexivity | lia].
  - apply Forall_cons_iff in Hcov as [[Hf Hr] Hcov].
    apply Forall_cons_iff in Hprobe as [Hb Hprobe]. simpl in Hf, Hr, Hb.
    destruct (check_one_ok w nm check tl Hf Hr Hb) as (tl1 & H1 & Hh & Hkf & Hkr).
    destruct (IH tl1) as (tl' & H2 & Hh'); [|exact Hprobe|].
    { eapply Forall_impl; [exact Hcov|]. intros kv [? ?]. split; auto. }
    exists tl'. simpl. rewrite H1. split; [exact H2|].
    rewrite Hh', Hh. destruct (passes w check); simpl length; lia.
Qed.

Lemma passed_range w checks : 0 <= passed w checks <= Z.of_nat (length checks).
Proof.
  unfold passed. pose proof (filter_length_le (fun kv => passes w (snd kv)) checks). lia.
Qed.

(** With the counters in place and the probes contained, a run over a
    non-empty registry returns the status of the share that passed. *)
Lemma check_health_run hc w now :
  wf_checker hc -> probes_contained w (_checks hc) -> _checks hc <> [] ->
  let status := status_of_ratio (pass_ratio w (_checks hc)) in
  snd (check_health hc w now) = inl status
  /\ _current_status (fst (check_health hc w now)) = status
  /\ _status_history (fst (check_health hc w now))
     = trim_history (_status_history hc ++ [(now, "overall"%string, status)]).
Proof.
  intros Hwf Hprobe Hne. unfold check_health, pass_ratio.
  destruct (_checks hc) as [|kv checks] eqn:Hc; [congruence|].
  destruct (check_all_ok w (kv :: checks)
              {| failures := _failure_counts hc; recoveries := _recovery_counts hc;
                 healthy_checks := 0 |}) as (tl & Hall & Hh).
  - unfold wf_checker in Hwf. now rewrite Hc in Hwf.
  - exact Hprobe.
  - rewrite Hall. simpl in Hh. rewrite Hh. simpl. now repeat split.
Qed.

Lemma trim_history_length {A : Type} (h : list A) : (length (trim_history h) <= 1000)%nat.
Proof.
  unfold trim_history. destruct (1000 <? length h)%nat eqn:E.
  - apply Nat.ltb_lt in E. rewrite length_skipn. lia.
  - apply Nat.ltb_ge in E. exact E.
Qed.

(** Whatever a run does, a history within 1000 entries stays within. *)
Lemma check_health_history_bound hc w now :
  (length (_status_history hc) <= 1000)%nat ->
  (length (_status_history (fst (check_health hc w now))) <= 1000)%nat.
Proof.
  intros H. unfold check_health. destruct (_checks hc); [exact H|].
  destruct (check_all _ _ _) as [tl|[tl e]]; simpl; [apply trim_history_length | exact H].
Qed.

Lemma reachable_history_bound hc :
  checker_reachable hc -> (length (_status_history hc) <= 1000)%nat.
Proof.
  induction 1 as [|hc check _ IH|hc nm _ IH|hc w now _ IH].
  - simpl. lia.
  - exact IH.
  - unfold remove_check. destruct (PyDict.mem _ _); [|exact IH].
    destruct (_failure_counts hc !! nm); [|exact IH].
    now destruct (_recovery_counts hc !! nm).
  - now apply check_health_history_bound.
Qed.


(** C9, amended: a run over a registry that is not empty returns unless a
    probe raises outside [Exception]; a run that returns appends the one entry
    [(now, "overall", status)], and when the history then has more than 1000
    entries it is cut to its last 500; a run that raises leaves the history
    as it was; a run over an empty registry returns Unknown and leaves the
    history as it was; a history within 1000 entries stays within through any
    run, so the history of a checker reachable from a new one never has more
    than 1000 entries, and so never more than 1001. *)
Theorem check_health_history (hc : HealthChecker World) (w : World) (now : Q) :
  (_checks hc <> [] ->
   (wf_checker hc -> probes_contained w (_checks hc) ->
    exists status, snd (check_health hc w now) = inl status)
   /\ (forall status,
         snd (check_health hc w now) = inl status ->
         let h := _status_history hc ++ [(now, "overall"%string, status)] in
         ((length h <= 1000)%nat ->
          _status_history (fst (check_health hc w now)) = h)
         /\ ((1000 < length h)%nat ->
             _status_history (fst (check_health hc w now)) = skipn (length h - 500) h
             /\ length (_status_history (fst (check_health hc w now))) = 500%nat))
   /\ (forall e,
         snd (check_health hc w now) = inr e ->
         _status_history (fst (check_health hc w now)) = _status_history hc))
  /\ (_checks hc = [] ->
      snd (check_health hc w now) = inl UNKNOWN
      /\ _status_history (fst (check_health hc w now)) = _status_history hc)
  /\ ((length (_status_history hc) <= 1000)%nat ->
      (length (_status_history (fst (check_health hc w now))) <= 1000)%nat)
  /\ (checker_reachable hc ->
      (length (_status_history (fst (check_health hc w now))) <= 1000)%nat
      /\ (length (_status_history (fst (check_health hc w now))) <= 1001)%nat).
Proof.
  repeat apply conj.
  - intros Hne. split; [|split].
    + intros Hwf Hprobe.
      destruct (check_health_run hc w now Hwf Hprobe Hne) as (Hs & _ & _).
      eexists. exact Hs.
    + intros status. unfold check_health.
      destruct (_checks hc) as [|kv checks]; [congruence|].
      destruct (check_all _ _ _) as [tl|[tl e]]; simpl; [|discriminate].
      intros [= <-]. unfold trim_history. split.
      * intros Hle. apply Nat.ltb_ge in Hle. now rewrite Hle.
      * intros Hlt. pose proof Hlt as Hb. apply Nat.ltb_lt in Hb. rewrite Hb.
        split; [reflexivity|]. rewrite length_skipn. lia.
    + intros e. unfold check_health.
      destruct (_checks hc) as [|kv checks]; [discriminate|].
      destruct (check_all _ _ _) as [tl|[tl e']]; simpl; [discriminate | reflexivity].
  - intros Hc. unfold check_health. now rewrite Hc.
  - apply check_health_history_bound.
  - intros Hr.
    pose proof (check_health_history_bound hc w now (reachable_history_bound hc Hr)).
    lia.
Qed.

Lemma on_exception_keeps nm tl k :
  (is_Some (failures tl !! k) -> is_Some (failures (tally_of (World := World) (on_exception nm tl)) !! k))
  /\ (is_Some (recoveries tl !! k) -> is_Some (recoveries (tally_of (World := World) (on_exception nm tl)) !! k)).
Proof.
  unfold on_exception. destruct (failures tl !! nm); simpl; auto using is_Some_insert.
Qed.

Lemma check_one_keeps w nm check tl k :
  (is_Some (failures tl !! k) -> is_Some (failures (tally_of (World := World) (check_one w nm check tl)) !! k))
  /\ (is_Some (recoveries tl !! k) -> is_Some (recoveries (tally_of (World := World) (check_one w nm check tl)) !! k)).
Proof.
  unfold check_one. destruct (_execute_check check w) as [[|]|e]; simpl; auto.
  - destruct (recoveries tl !! nm); simpl; [auto using is_Some_insert|].
    match goal with |- context [on_exception nm ?t] =>
      destruct (on_exception_keeps nm t k) as [H1 H2] end.
    simpl in H1, H2. auto using is_Some_insert.
  - destruct (failures tl !! nm); simpl; [auto using is_Some_insert|].
    apply on_exception_keeps.
Qed.

Lemma check_all_keeps w checks k : forall tl,
  (is_Some (failures tl !! k) -> is_Some (failures (tally_of (World := World) (check_all w checks tl)) !! k))
  /\ (is_Some (recoveries tl !! k) -> is_Some (recoveries (tally_of (World := World) (check_all w checks tl)) !! k)).
Proof.
  induction checks as [|[nm check] checks IH]; intros tl; simpl; [auto|].
  destruct (check_one_keeps w nm check tl k) as [H1 H2].
  destruct (check_one w nm check tl) as [tl'|[tl' e]]; simpl in *; [|auto].
  destruct (IH tl') as [H3 H4]. auto.
Qed.

Lemma check_health_counters hc w now k :
  _checks (fst (check_health hc w now)) = _checks hc
  /\ (is_Some (_failure_counts hc !! k) ->
      is_Some (_failure_counts (fst (check_health hc w now)) !! k))
  /\ (is_Some (_recovery_counts hc !! k) ->
      is_Some (_recovery_counts (fst (check_health hc w now)) !! k)).
Proof.
  unfold check_health. destruct (_checks hc) as [|kv checks] eqn:Hc; [now simpl|].
  match goal with |- context [check_all w ?c ?t] =>
    destruct (check_all_keeps w c k t) as [H1 H2];
    destruct (check_all w c t) as [tl|[tl e]] end; simpl in *; auto.
Qed.

(** Every checker reachable from a new one keeps its registry and its
    counters in step. *)
Lemma reachable_checker_inv hc : checker_reachable hc -> checker_inv hc.
Proof.
  unfold checker_inv, wf_checker.
  induction 1 as [|hc check _ [Hnd Hwf]|hc nm _ [Hnd Hwf]|hc w now _ [Hnd Hwf]].
  - split; [apply NoDup_nil_2 | constructor].
  - simpl. split; [now apply dict_NoDup_set|].
    apply dict_Forall_set.
    + simpl. rewrite !lookup_insert_eq. split; eauto.
    + eapply Forall_impl; [exact Hwf|]. intros kv [? ?].
      split; now apply is_Some_insert.
  - unfold remove_check. destruct (PyDict.mem (_checks hc) nm); [|now split].
    destruct (dict_NoDup_del (_checks hc) nm Hnd) as [Hnd' Hnin].
    assert (Hne : Forall (fun kv : string * HealthCheck World => fst kv <> nm)
                    (PyDict.del (_checks hc) nm)).
    { apply Forall_forall. intros [k c] Hin Heq. simpl in Heq. subst k.
      apply Hnin. unfold PyDict.keys. apply list_elem_of_In.
      apply list_elem_of_In in Hin. apply (in_map fst) in Hin. exact Hin. }
    pose proof (dict_Forall_del _ _ nm Hwf) as Hwf'.
    destruct (_failure_counts hc !! nm); [|now split].
    destruct (_recovery_counts hc !! nm); simpl; (split; [exact Hnd'|]);
      apply Forall_forall; intros kv Hin;
      pose proof (proj1 (Forall_forall _ _) Hne kv Hin) as Hk;
      destruct (proj1 (Forall_forall _ _) Hwf' kv Hin) as [Hf Hr];
      rewrite ?lookup_delete_ne by congruence; now split.
  - destruct (check_health_counters hc w now EmptyString) as (Hc & _ & _).
    rewrite Hc. split; [exact Hnd|].
    eapply Forall_impl; [exact Hwf|]. intros kv [Hf Hr].
    destruct (check_health_counters hc w now (fst kv)) as (_ & H1 & H2). auto.
Qed.

End HealthProperties.

(** Two runs that append no entry, where C9 expects one: a new checker run
    with no check registered returns Unknown, and a run whose probe is
    interrupted from the keyboard raises. *)
Lemma check_health_no_entry :
  (snd (Health.check_health (World := unit) Health.init tt 5) = inl Health.UNKNOWN
   /\ Health._status_history (fst (Health.check_health (World := unit) Health.init tt 5)) = []
   /\ ~ (exists entry,
           Health._status_history (fst (Health.check_health (World := unit) Health.init tt 5))
           = Health._status_history (Health.init (World := unit)) ++ [entry]))
  /\ (Health._checks interrupted_checker <> []
      /\ snd (Health.check_health interrupted_checker tt 5) = inr KeyboardInterrupt
      /\ Health._status_history (fst (Health.check_health interrupted_checker tt 5)) = []
      /\ ~ (exists entry,
              Health._status_history (fst (Health.check_health interrupted_checker tt 5))
              = Health._status_history interrupted_checker ++ [entry])).
Proof.
  split.
  - split; [reflexivity|]. split; [reflexivity|].
    intros [entry H]. discriminate H.
  - split; [discriminate|]. split; [reflexivity|]. split; [reflexivity|].
    intros [entry H]. discriminate H.
Qed.

Lemma two_probes_reachable : checker_reachable two_probes.
Proof. repeat apply cr_add. apply cr_init. Qed.

Lemma two_probes_contained : probes_contained tt (Health._checks two_probes).
Proof. repeat constructor; eexists; reflexivity. Qed.


Lemma runs_reachable nows : forall hc,
  checker_reachable hc -> checker_reachable (runs hc nows).
Proof.
  induction nows as [|i nows IH]; intros hc Hr; [exact Hr|].
  apply IH. now apply cr_check.
Qed.

Lemma long_running_reachable : checker_reachable long_running.
Proof. apply runs_reachable, two_probes_reachable. Qed.

Lemma check_health_history_witness :
  length (Health._status_history long_running) = 1000%nat
  /\ (exists status,
        snd (Health.check_health long_running tt 1000) = inl status
        /\ Health._status_history (fst (Health.check_health long_running tt 1000))
           = skipn 501 (Health._status_history long_running
                        ++ [(1000%Q, "overall"%string, status)])
        /\ length (Health._status_history (fst (Health.check_health long_running tt 1000)))
           = 500%nat)
  /\ Health._status_history (fst (Health.check_health two_probes tt 5))
     = Health._status_history two_probes ++ [(5%Q, "overall"%string, Health.DEGRADED)]
  /\ Health._status_history (fst (Health.check_health interrupted_checker tt 5))
     = Health._status_history interrupted_checker
  /\ (length (Health._status_history (fst (Health.check_health long_running tt 1000)))
      <= 1000)%nat.
Proof.
  assert (Hlen : length (Health._status_history long_running) = 1000%nat)
    by (vm_compute; reflexivity).
  assert (Hchecks : Health._checks long_running = Health._checks two_probes)
    by (vm_compute; reflexivity).
  split; [exact Hlen|].
  destruct (check_health_history long_running tt 1000) as (Hlong & _ & _ & Hreach).
  destruct (check_health_history two_probes tt 5) as (Hshort & _).
  destruct (check_health_history interrupted_checker tt 5) as (Hint & _).
  destruct Hlong as (Hret & Happ & _); [rewrite Hchecks; discriminate|].
  destruct Hshort as (_ & Hone & _); [discriminate|].
  destruct Hint as (_ & _ & Hraise); [discriminate|].
  split; [|split; [|split]].
  - destruct Hret as (status & Hs).
    + apply reachable_checker_inv, long_running_reachable.
    + rewrite Hchecks. exact two_probes_contained.
    + exists status. split; [exact Hs|].
      destruct (Happ status Hs) as (_ & Hcut).
      rewrite length_app, Hlen in Hcut. apply Hcut. simpl. lia.
  - assert (Hs : snd (Health.check_health two_probes tt 5) = inl Health.DEGRADED)
      by reflexivity.
    destruct (Hone Health.DEGRADED Hs) as (Hsmall & _).
    apply Hsmall. apply Nat.leb_le. reflexivity.
  - apply (Hraise KeyboardInterrupt). reflexivity.
  - apply Hreach, long_running_reachable.
Defined.

(** ** BatchOperator *)

Section BatchProperties.
Import Batch.
Variable int16_parses : string -> bool.

Lemma execute_single_result u operation t0 t1 r :
  _execute_single int16_parses u operation t0 t1 = inl r ->
  udid r = u
  /\ (success r = true -> error r = None)
  /\ (success r = false -> result r = PyNone /\ exists msg, error r = Some msg)
  /\ (result r <> PyNone -> error r = None).
Proof.
  unfold _execute_single.
  destruct (match Device_init int16_parses u with
            | inl device => operation device
            | inr e => Raises e
            end) as [v|e].
  - intros [= <-]. simpl. repeat split; try discriminate; auto.
  - destruct (isinstance e "Exception"); [|discriminate].
    intros [= <-]. simpl. repeat split; try discriminate; eauto. congruence.
Qed.

Lemma execute_single_contained u operation t0 t1 :
  (forall device e, Device_init int16_parses u = inl device ->
                    operation device = Raises e -> isinstance e "Exception" = true) ->
  exists r, _execute_single int16_parses u operation t0 t1 = inl r.
Proof.
  intros Hc. unfold _execute_single, Device_init in *.
  destruct (negb (validate_udid int16_parses u)).
  - simpl. eauto.
  - destruct (operation _) as [v|e] eqn:Hop; [eauto|].
    rewrite (Hc _ e eq_refl Hop). eauto.
Qed.

(** When every future holds a result, the loop collects the results of
    the yielded futures, in the order they are yielded. *)
Lemma collect_results (futures : list (string * (BatchResult + pyexn))) yielded :
  (forall i f, futures !! i = Some f -> exists r, snd f = inl r) ->
  Forall (fun i => (i < length futures)%nat) yielded ->
  forall acc, exists rs,
    collect futures yielded acc = inl (acc ++ rs)
    /\ Forall2 (fun i r => exists u, futures !! i = Some (u, inl r)) yielded rs.
Proof.
  intros Hf. induction 1 as [|i yielded Hi Hall IH]; intros acc.
  - exists []. simpl. rewrite app_nil_r. split; [reflexivity | constructor].
  - simpl. destruct (futures !! i) as [[u f]|] eqn:Hl.
    + destruct (Hf _ _ Hl) as [r Hr]. simpl in Hr. subst f.
      destruct (IH (acc ++ [r])) as (rs & Hc & H2).
      exists (r :: rs). rewrite Hc, <- app_assoc. split; [reflexivity|].
      constructor; [eauto | exact H2].
    + apply lookup_ge_None in Hl. lia.
Qed.

Lemma pending_nil total yielded :
  (forall i, (i < total)%nat -> i ∈ yielded) -> pending total yielded = [].
Proof.
  intros H. unfold pending.
  destruct (List.filter _ _) as [|i l] eqn:E; [reflexivity|].
  assert (Hin : In i (List.filter (fun i => negb (existsb (Nat.eqb i) yielded)) (seq 0 total)))
    by (rewrite E; now left).
  apply filter_In in Hin as [Hseq Hneg]. apply in_seq in Hseq.
  specialize (H i ltac:(lia)). apply list_elem_of_In in H.
  assert (existsb (Nat.eqb i) yielded = true)
    by (apply existsb_exists; exists i; split; [exact H | apply Nat.eqb_refl]).
  rewrite H0 in Hneg. discriminate.
Qed.

Lemma pending_missing total yielded i :
  (i < total)%nat -> i ∉ yielded -> pending total yielded <> [].
Proof.
  intros Hi Hnot Hnil.
  assert (Hin : In i (pending total yielded)).
  { unfold pending. apply filter_In. split; [apply in_seq; lia|].
    destruct (existsb (Nat.eqb i) yielded) eqn:E; [|reflexivity].
    apply existsb_exists in E as (j & Hj & Heq). apply Nat.eqb_eq in Heq. subst j.
    exfalso. apply Hnot. now apply list_elem_of_In. }
  rewrite Hnil in Hin. exact Hin.
Qed.

(** A schedule that yields as many futures as there are is an ordering of
    all of them. *)
Lemma schedule_complete total yielded :
  schedule_ok total yielded -> length yielded = total -> yielded ≡ₚ seq 0 total.
Proof.
  intros [Hnd Hlt] Hlen. apply submseteq_length_Permutation.
  - apply NoDup_submseteq; [exact Hnd|]. intros i Hi. apply elem_of_seq.
    rewrite Forall_forall in Hlt. specialize (Hlt i Hi). lia.
  - rewrite length_seq. lia.
Qed.

Lemma schedule_incomplete total yielded :
  schedule_ok total yielded -> (length yielded < total)%nat ->
  exists i, (i < total)%nat /\ i ∉ yielded.
Proof.
  intros [Hnd Hlt] Hlen.
  destruct (decide (Forall (fun i => i ∈ yielded) (seq 0 total))) as [Hall|Hex].
  - exfalso. assert (Hsub : seq 0 total ⊆+ yielded).
    { apply NoDup_submseteq; [apply NoDup_seq|]. now apply Forall_forall. }
    apply submseteq_length in Hsub. rewrite length_seq in Hsub. lia.
  - apply not_Forall_Exists in Hex; [|intros i; apply _].
    apply Exists_exists in Hex as (i & Hi & Hn). exists i. split; [|exact Hn].
    apply elem_of_seq in Hi. lia.
Qed.

Lemma lookups_of_seq (udids : list string) :
  (fun i => default EmptyString (udids !! i)) <$> seq 0 (length udids) = udids.
Proof.
  apply list_eq. intros i. rewrite list_lookup_fmap.
  destruct (decide (i < length udids)%nat) as [Hlt|Hge].
  - rewrite lookup_seq_lt by exact Hlt. simpl.
    destruct (lookup_lt_is_Some_2 udids i Hlt) as [u Hu]. now rewrite Hu.
  - rewrite lookup_seq_ge by lia. symmetry. apply lookup_ge_None. lia.
Qed.

(** With at least one worker allowed and the operations contained, the
    call collects the result of every yielded future, and then returns if
    nothing is pending and raises the timeout error otherwise. *)
Lemma execute_batch_run self udids operation clock yielded :
  0 < max_workers self ->
  contained int16_parses udids operation ->
  schedule_ok (length udids) yielded ->
  exists rs,
    Forall2 (fun i r => worker int16_parses udids operation clock i = Some (inl r))
            yielded rs
    /\ execute_batch int16_parses self udids operation clock yielded
       = match pending (length udids) yielded with
         | [] => inl rs
         | p => inr (unfinished (length p) (length udids))
         end.
Proof.
  intros Hw Hc [Hnd Hlt]. unfold execute_batch.
  replace (max_workers self <=? 0) with false by (symmetry; apply Z.leb_gt; exact Hw).
  set (futures := imap _ udids).
  destruct (collect_results futures yielded) with (acc := @nil BatchResult)
    as (rs & Hcol & H2).
  - intros i [u f] Hl. subst futures. rewrite list_lookup_imap in Hl.
    destruct (udids !! i) as [u'|] eqn:Hu; [|discriminate]. simpl in Hl.
    injection Hl as <- <-. simpl.
    apply execute_single_contained. intros device e Hd Hop.
    exact (Hc i u' device e Hu Hd Hop).
  - subst futures. now rewrite length_imap.
  - exists rs. rewrite Hcol. simpl. split; [|reflexivity].
    eapply Forall2_impl; [exact H2|]. intros i r [u Hl]. simpl in Hl.
    subst futures. rewrite list_lookup_imap in Hl. unfold worker.
    destruct (udids !! i) as [u'|]; [|discriminate]. simpl in Hl.
    now injection Hl as <- ->.
Qed.

Lemma worker_udids udids operation clock yielded rs :
  Forall2 (fun i r => worker int16_parses udids operation clock i = Some (inl r))
          yielded rs ->
  map udid rs = (fun i => default EmptyString (udids !! i)) <$> yielded.
Proof.
  induction 1 as [|i r yielded rs Hw _ IH]; [reflexivity|].
  simpl. rewrite IH. f_equal. unfold worker in Hw.
  destruct (udids !! i) as [u|]; [|discriminate]. injection Hw as Hw.
  now destruct (execute_single_result _ _ _ _ _ Hw) as [-> _].
Qed.

(** A call in which every worker finishes returns the results of the
    workers, one for each key. *)
Lemma execute_batch_completes self udids operation clock yielded :
  0 < max_workers self ->
  contained int16_parses udids operation ->
  schedule_ok (length udids) yielded ->
  length yielded = length udids ->
  exists rs,
    execute_batch int16_parses self udids operation clock yielded = inl rs
    /\ Forall2 (fun i r => worker int16_parses udids operation clock i = Some (inl r))
               yielded rs
    /\ map udid rs ≡ₚ udids.
Proof.
  intros Hw Hc Hok Hlen.
  destruct (execute_batch_run self udids operation clock yielded Hw Hc Hok)
    as (rs & H2 & Hrun).
  pose proof (schedule_complete _ _ Hok Hlen) as Hperm.
  exists rs. rewrite Hrun, pending_nil.
  - split; [reflexivity|]. split; [exact H2|].
    rewrite (worker_udids _ _ _ _ _ H2), Hperm. now rewrite lookups_of_seq.
  - intros i Hi. rewrite Hperm. apply elem_of_seq. lia.
Qed.



(** C1, amended: with at least one worker allowed and operations that
    raise nothing beyond [Exception], a call in which every worker finishes
    before the timeout of [as_completed] returns one result for each input
    key, each the result of the worker of its key; a call in which the timeout
    passes with workers unfinished returns nothing: the [TimeoutError] of
    [as_completed] leaves it. *)
Theorem execute_batch_one_result_per_key (self : BatchOperator) (udids : list string)
    (operation : nat -> Device -> call_outcome) (clock : nat -> Q * Q)
    (yielded : list nat) :
  0 < max_workers self ->
  contained int16_parses udids operation ->
  schedule_ok (length udids) yielded ->
  (length yielded = length udids ->
   exists results,
     execute_batch int16_parses self udids operation clock yielded = inl results
     /\ length results = length udids
     /\ map udid results ≡ₚ udids
     /\ Forall2 (fun i r => worker int16_parses udids operation clock i = Some (inl r))
                yielded results)
  /\ ((length yielded < length udids)%nat ->
      exists n,
        (0 < n)%nat
        /\ execute_batch int16_parses self udids operation clock yielded
           = inr (unfinished n (length udids))
        /\ isinstance (unfinished n (length udids)) "TimeoutError" = true).
Proof.
  intros Hw Hc Hok.
  destruct (execute_batch_run self udids operation clock yielded Hw Hc Hok)
    as (rs & H2 & Hrun).
  split.
  - intros Hlen.
    destruct (execute_batch_completes self udids operation clock yielded Hw Hc Hok Hlen)
      as (results & He & HF & Hp).
    exists results. split; [exact He|].
    split; [rewrite <- (Forall2_length _ _ _ HF); exact Hlen|]. now split.
  - intros Hlen. destruct (schedule_incomplete _ _ Hok Hlen) as (i & Hi & Hn).
    pose proof (pending_missing _ _ i Hi Hn) as Hp.
    destruct (pending (length udids) yielded) as [|j p]; [congruence|].
    exists (length (j :: p)). rewrite Hrun. split; [simpl; lia|]. split; reflexivity.
Qed.

End BatchProperties.

Lemma batch_contained : contained (fun _ => true) batch_keys batch_operation.
Proof.
  intros i u device e _ _ Hop. destruct i; simpl in Hop; [discriminate|].
  now injection Hop as <-.
Qed.

(** Two keys, one worker finished when the timeout of [as_completed]
    passes: the call raises [TimeoutError] and returns no list of results,
    where C1 expects two results, one of them failed with a timeout error. *)
Lemma execute_batch_timeout_raises :
  Batch.execute_batch (fun _ => true) default_operator [phone_a; phone_b]
    batch_operation batch_clock [O]
  = inr (TimeoutError "1 (of 2) futures unfinished")
  /\ ~ (exists results,
          Batch.execute_batch (fun _ => true) default_operator [phone_a; phone_b]
            batch_operation batch_clock [O]
          = inl results).
Proof.
  split; [reflexivity|]. intros [results H]. discriminate H.
Qed.

Lemma execute_batch_one_result_per_key_witness :
  (exists results,
     Batch.execute_batch (fun _ => true) default_operator batch_keys
       batch_operation batch_clock [2; 0; 1]%nat = inl results
     /\ length results = length batch_keys
     /\ map Batch.udid results ≡ₚ batch_keys
     /\ Forall2 (fun i r => worker (fun _ => true) batch_keys batch_operation batch_clock i
                            = Some (inl r)) [2; 0; 1]%nat results)
  /\ (exists n,
        (0 < n)%nat
        /\ Batch.execute_batch (fun _ => true) default_operator batch_keys
             batch_operation batch_clock [1]%nat
           = inr (Batch.unfinished n (length batch_keys))
        /\ isinstance (Batch.unfinished n (length batch_keys)) "TimeoutError" = true).
Proof.
  split.
  - apply (execute_batch_one_result_per_key (fun _ => true) default_operator batch_keys
             batch_operation batch_clock [2; 0; 1]%nat).
    + reflexivity.
    + exact batch_contained.
    + split; [apply (bool_decide_unpack _); reflexivity | repeat constructor; simpl; lia].
    + reflexivity.
  - apply (execute_batch_one_result_per_key (fun _ => true) default_operator batch_keys
             batch_operation batch_clock [1]%nat).
    + reflexivity.
    + exact batch_contained.
    + split; [apply (bool_decide_unpack _); reflexivity | repeat constructor; simpl; lia].
    + simpl. lia.
Defined.


(** * Further properties *)

(** ** RetryManager: success after retries, edge configurations, delays *)

Section RetryFurther.
Import Retry.



(** X2: with a negative [max_retries] the loop has no turn: [execute]
    never invokes the function, leaves the statistics alone and raises the
    [TypeError] of [raise None]. *)
Theorem execute_negative_max_retries (cfg : RetryConfig) (name : string)
    (func : nat -> call_outcome) (rnd : nat -> Q) (st : gmap string stat) :
  max_retries cfg < 0 ->
  execute cfg name func rnd st
  = (start st, Raises (TypeError "exceptions must derive from BaseException")).
Proof.
  intros Hneg. unfold execute.
  replace (Z.to_nat (max_retries cfg + 1)) with O by lia. reflexivity.
Qed.

Lemma execute_negative_max_retries_witness :
  execute no_attempt_config "probe" always_down (fun _ => 0%Q) ∅
  = (start ∅, Raises (TypeError "exceptions must derive from BaseException")).
Proof.
  apply (execute_negative_max_retries no_attempt_config "probe" always_down (fun _ => 0%Q) ∅).
  reflexivity.
Defined.

(** The delay after the first attempt is always computed: [backoff_factor
    ** 0] is 1. *)
Lemma calculate_delay_first cfg u : exists d, _calculate_delay cfg 0 u = inl d.
Proof.
  assert (Hr : delay_in_range cfg 0).
  { unfold delay_in_range. destruct (strategy cfg); auto. }
  destruct (jitter cfg) eqn:Hj; eexists;
    [now apply calculate_delay_jitter | now apply calculate_delay_no_jitter].
Qed.



Lemma attempts_stats cfg name func rnd rem : forall a r,
  let r' := fst (attempts cfg name func rnd rem a r) in
  (forall n, n <> name -> stats r' !! n = stats r !! n)
  /\ success (stat_of name (stats r)) <= success (stat_of name (stats r'))
     <= success (stat_of name (stats r)) + 1
  /\ retries (stat_of name (stats r)) <= retries (stat_of name (stats r'))
  /\ retries (stat_of name (stats r')) - retries (stat_of name (stats r))
     <= failure (stat_of name (stats r')) - failure (stat_of name (stats r)).
Proof.
  induction rem as [|rem IH]; intros a r; simpl.
  - repeat split; auto; lia.
  - destruct (func a) as [v|e]; simpl.
    + rewrite stat_of_bump. simpl. repeat split; try lia.
      intros n Hn. now rewrite lookup_bump_ne.
    + destruct (isinstance_any e (exceptions cfg)); simpl; [|repeat split; auto; lia].
      destruct (Z.of_nat a <? max_retries cfg); simpl.
      * destruct (_calculate_delay cfg a (rnd a)) as [d|err]; simpl.
        -- destruct (sleep d); simpl.
           ++ rewrite stat_of_bump. simpl. repeat split; try lia.
              intros n Hn. now rewrite lookup_bump_ne.
           ++ match goal with |- context [attempts _ _ _ _ rem (S a) ?r0] =>
                specialize (IH (S a) r0) end.
              simpl in IH. rewrite !stat_of_bump in IH. simpl in IH.
              destruct IH as (H1 & H2 & H3 & H4).
              repeat split; try lia.
              intros n Hn. rewrite H1 by exact Hn. now rewrite !lookup_bump_ne.
        -- rewrite stat_of_bump. simpl. repeat split; try lia.
           intros n Hn. now rewrite lookup_bump_ne.
      * rewrite stat_of_bump. simpl. repeat split; try lia.
        intros n Hn. now rewrite lookup_bump_ne.
Qed.

(** X4: whatever the function does, [execute] changes no entry of the
    statistics but the one of the function, never lowers a counter of that
    entry, adds at most one success, and counts no more retries than
    failures. *)
Theorem execute_stats_local (cfg : RetryConfig) (name : string)
    (func : nat -> call_outcome) (rnd : nat -> Q) (st : gmap string stat) :
  let r := fst (execute cfg name func rnd st) in
  (forall n, n <> name -> stats r !! n = st !! n)
  /\ success (stat_of name st) <= success (stat_of name (stats r))
     <= success (stat_of name st) + 1
  /\ retries (stat_of name st) <= retries (stat_of name (stats r))
  /\ retries (stat_of name (stats r)) - retries (stat_of name st)
     <= failure (stat_of name (stats r)) - failure (stat_of name st).
Proof.
  pose proof (attempts_stats cfg name func rnd (Z.to_nat (max_retries cfg + 1)) O (start st))
    as H.
  unfold execute. simpl in H.
  destruct (attempts _ _ _ _ _ _ _) as [r ex]. simpl in H.
  destruct ex; [exact H | exact H |]. now destruct (last_exception r).
Qed.

Lemma clamped_delay_bounds cfg i :
  valid_config cfg ->
  (0 <= clamped_delay cfg i)%Q /\ (clamped_delay cfg i <= max_delay cfg)%Q.
Proof.
  intros Hok. split; [now apply clamped_delay_nonneg|].
  unfold clamped_delay. apply Q.le_min_r.
Qed.

(** X5: [_calculate_delay] returns a delay exactly when the numbers of the
    strategy are within the doubles, and raises [OverflowError] otherwise.
    The delay it returns is the clamped delay [c] of the strategy without
    jitter, and [c + (0.1 + (0.3 - 0.1) * u) * c] with jitter, for the draw
    [u] of [random()]. For a configuration with durations that are not
    negative and a draw in [0, 1), it is not negative, at most [max_delay]
    without jitter, and between 1.1 and 1.3 times [c], hence at most 1.3
    times [max_delay], with jitter. *)
Theorem calculate_delay_bounds (cfg : RetryConfig) (i : nat) (u : Q) :
  (delay_in_range cfg i ->
   exists d,
     _calculate_delay cfg i u = inl d
     /\ (jitter cfg = false -> d = clamped_delay cfg i)
     /\ (jitter cfg = true ->
         d = (clamped_delay cfg i
              + ((1 # 10) + ((3 # 10) - (1 # 10)) * u) * clamped_delay cfg i)%Q)
     /\ (valid_config cfg -> (0 <= u)%Q -> (u < 1)%Q ->
         (0 <= d)%Q
         /\ (jitter cfg = false -> (d <= max_delay cfg)%Q)
         /\ (jitter cfg = true ->
             ((11 # 10) * clamped_delay cfg i <= d)%Q
             /\ (d <= (13 # 10) * clamped_delay cfg i)%Q
             /\ (d <= (13 # 10) * max_delay cfg)%Q)))
  /\ (~ delay_in_range cfg i ->
      exists msg, _calculate_delay cfg i u = inr (OverflowError msg)).
Proof.
  split; [|apply calculate_delay_out_of_range].
  intros Hr. destruct (jitter cfg) eqn:Hj.
  - eexists. split; [now apply calculate_delay_jitter|].
    split; [discriminate|]. split; [reflexivity|].
    intros Hok H0 H1. destruct (clamped_delay_bounds cfg i Hok) as [Hc0 Hcm].
    destruct (uniform_jitter_range u H0 H1) as [Hlo Hhi].
    set (c := clamped_delay cfg i) in *. set (r := uniform (1 # 10) (3 # 10) u) in *.
    assert (r * c <= (3 # 10) * c)%Q
      by (apply Qmult_le_compat_r; [apply Qlt_le_weak; exact Hhi | exact Hc0]).
    assert ((1 # 10) * c <= r * c)%Q
      by (apply Qmult_le_compat_r; [exact Hlo | exact Hc0]).
    split; [lra|]. split; [discriminate|]. intros _. repeat split; lra.
  - eexists. split; [now apply calculate_delay_no_jitter|].
    split; [reflexivity|]. split; [discriminate|].
    intros Hok H0 H1. destruct (clamped_delay_bounds cfg i Hok) as [Hc0 Hcm].
    split; [exact Hc0|]. split; [intros _; exact Hcm | discriminate].
Qed.

Lemma calculate_delay_bounds_witness :
  (exists d,
     _calculate_delay default_config 7 (1 # 2) = inl d
     /\ d = (clamped_delay default_config 7
             + ((1 # 10) + ((3 # 10) - (1 # 10)) * (1 # 2)) * clamped_delay default_config 7)%Q
     /\ (0 <= d)%Q /\ (d <= (13 # 10) * 60)%Q)
  /\ (exists msg, _calculate_delay long_retry_config 1024 (1 # 2) = inr (OverflowError msg)).
Proof.
  assert (Hd : valid_config default_config) by (repeat split; discriminate).
  assert (H0 : (0 <= 1 # 2)%Q) by discriminate.
  assert (H1 : (1 # 2 < 1)%Q) by reflexivity.
  split.
  - destruct (calculate_delay_bounds default_config 7 (1 # 2)) as [Hin _].
    destruct Hin as (d & Hv & _ & Hj & Hb); [split; vm_compute; reflexivity|].
    destruct (Hb Hd H0 H1) as (Hpos & _ & Hjb).
    exists d. split; [exact Hv|]. split; [exact (Hj eq_refl)|].
    split; [exact Hpos | apply (Hjb eq_refl)].
  - destruct (calculate_delay_bounds long_retry_config 1024 (1 # 2)) as [_ Hout].
    apply Hout. intros [_ H]. vm_compute in H. discriminate H.
Defined.

Lemma py_min_mono (a b m : Q) : (a <= b)%Q -> (py_min a m <= py_min b m)%Q.
Proof.
  intros H. unfold py_min.
  destruct (Qlt_le_dec m a), (Qlt_le_dec m b); lra.
Qed.

Lemma float_overflows_grows (x y : Q) :
  (0 <= x)%Q -> (x <= y)%Q -> float_overflows x = true -> float_overflows y = true.
Proof.
  unfold float_overflows. intros H0 Hxy H.
  apply Qle_bool_iff in H. apply Qle_bool_iff.
  rewrite (Qabs_pos x H0) in H. rewrite (Qabs_pos y) by lra. lra.
Qed.

Lemma float_overflows_not (x : Q) : float_overflows x <> true -> float_overflows x = false.
Proof. now destruct (float_overflows x). Qed.

Lemma Qpower_succ_ge (x : Q) (i : nat) :
  (1 <= x)%Q -> (0 <= x ^ Z.of_nat i)%Q /\ (x ^ Z.of_nat i <= x ^ Z.of_nat (S i))%Q.
Proof.
  intros Hx.
  assert (Hp : (0 <= x ^ Z.of_nat i)%Q) by (apply Qpower_0_le; lra).
  split; [exact Hp|].
  assert (Hs : (x ^ Z.of_nat (S i) == x ^ Z.of_nat i * x)%Q).
  { rewrite Nat2Z.inj_succ. unfold Z.succ. rewrite Qpower_plus by lra.
    now rewrite Qpower_1_r. }
  rewrite Hs. set (p := (x ^ Z.of_nat i)%Q) in *.
  apply (Qle_trans _ (p * 1)); [apply Qle_lteq; right; ring|].
  apply Qmult_le_compat_nonneg; split; lra.
Qed.

(** With [backoff_factor >= 1], numbers within the doubles after an attempt
    were within the doubles after the attempt before. *)
Lemma delay_in_range_pred cfg i :
  (1 <= backoff_factor cfg)%Q -> delay_in_range cfg (S i) -> delay_in_range cfg i.
Proof.
  intros Hf. unfold delay_in_range. destruct (strategy cfg); auto.
  - intros [Hn Hp]. destruct (Qpower_succ_ge (backoff_factor cfg) i Hf) as [H0 Hle].
    split; apply float_overflows_not; intros H.
    + apply (float_overflows_grows _ (inject_Z (Z.of_nat (S i)))) in H; [congruence | |];
        unfold Qle; simpl; lia.
    + apply (float_overflows_grows _ _ H0 Hle) in H. congruence.
  - intros Hn. apply float_overflows_not. intros H.
    apply (float_overflows_grows _ (inject_Z (Z.of_nat (S i) + 1))) in H; [congruence | |];
      unfold Qle; simpl; lia.
Qed.

(** X6: without jitter, for a configuration with durations that are not
    negative and [backoff_factor >= 1], the delay never shrinks from one
    attempt to the next, whatever the strategy, as long as it is computed;
    and once an attempt raises [OverflowError], so does the next. *)
Theorem calculate_delay_monotone (cfg : RetryConfig) (i : nat) (u u' : Q) :
  valid_config cfg -> (1 <= backoff_factor cfg)%Q -> jitter cfg = false ->
  (forall d d',
     _calculate_delay cfg i u = inl d -> _calculate_delay cfg (S i) u' = inl d' ->
     (d <= d')%Q)
  /\ (forall e,
        _calculate_delay cfg i u = inr e ->
        exists msg, _calculate_delay cfg (S i) u' = inr (OverflowError msg)).
Proof.
  intros (_ & Hb & Hm & _) Hf Hj. split.
  - intros d d' Hd Hd'.
    pose proof (calculate_delay_returns _ _ _ _ Hd) as Hr.
    pose proof (calculate_delay_returns _ _ _ _ Hd') as Hr'.
    rewrite (calculate_delay_no_jitter _ _ _ Hj Hr) in Hd.
    rewrite (calculate_delay_no_jitter _ _ _ Hj Hr') in Hd'.
    injection Hd as <-. injection Hd' as <-.
    unfold clamped_delay. rewrite <- !py_min_Qmin.
    apply py_min_mono. destruct (strategy cfg); try lra.
    + destruct (Qpower_succ_ge (backoff_factor cfg) i Hf) as [H0 Hle].
      apply Qmult_le_compat_nonneg; split; lra.
    + replace (Z.of_nat (S i) + 1) with (Z.of_nat i + 1 + 1) by lia.
      rewrite (inject_Z_plus (Z.of_nat i + 1) 1).
      set (x := inject_Z (Z.of_nat i + 1)). change (inject_Z 1) with 1%Q.
      apply (Qle_trans _ (base_delay cfg * x + base_delay cfg));
        [lra | apply Qle_lteq; right; ring].
  - intros e He. apply calculate_delay_out_of_range. intros Hr'.
    pose proof (delay_in_range_pred cfg i Hf Hr') as Hr.
    rewrite (calculate_delay_no_jitter _ _ _ Hj Hr) in He. discriminate He.
Qed.

Lemma calculate_delay_monotone_witness :
  _calculate_delay exponential_config 3 0 = inl 8%Q
  /\ _calculate_delay exponential_config 4 0 = inl 16%Q
  /\ (8 <= 16)%Q
  /\ (exists msg, _calculate_delay long_retry_config 1025 0 = inr (OverflowError msg)).
Proof.
  assert (He : valid_config exponential_config) by (repeat split; discriminate).
  assert (Hl : valid_config long_retry_config) by (repeat split; discriminate).
  split; [reflexivity|]. split; [reflexivity|]. split.
  - apply (calculate_delay_monotone exponential_config 3 0 0 He);
      [discriminate | reflexivity | reflexivity | reflexivity].
  - destruct (calculate_delay_monotone long_retry_config 1024 0 0 Hl) as [_ Hup];
      [discriminate | reflexivity |].
    apply (Hup (OverflowError "(34, 'Numerical result out of range')")).
    vm_compute. reflexivity.
Defined.

End RetryFurther.

(** ** CircuitBreaker: ranges of the counters, rejected and unexpected calls *)

Section BreakerFurther.
Import Breaker.

Lemma call_ranges cb now func nf :
  1 <= failure_threshold cb ->
  breaker_ranges cb -> breaker_ranges (after (call cb now func nf)).
Proof.
  intros Ht (Hf & Hs & Hh & Hc).
  unfold call, gate_call, _on_success, _on_failure, breaker_ranges.
  destruct (_state cb) eqn:Hst;
    try specialize (Hc eq_refl); try specialize (Hh eq_refl);
    try destruct (Qlt_le_dec _ _); destruct func as [v|e]; simpl; rewrite ?Hst;
    repeat match goal with
           | |- context [if ?c then _ else _] => destruct c eqn:?
           end; simpl; rewrite ?Hst;
    repeat match goal with
           | H : (_ <=? _) = true |- _ => apply Z.leb_le in H
           | H : (_ <=? _) = false |- _ => apply Z.leb_gt in H
           end;
    repeat split; try lia; try discriminate; intros; try lia.
Qed.

(** X7: in every breaker reachable from a new one with
    [failure_threshold >= 1], the failure count is not negative, the success
    count lies between 0 and 2 and is at most 1 while half-open, and a closed
    breaker has counted fewer failures than its threshold. *)
Theorem breaker_counter_ranges (threshold : Z) (recovery : Q) (expected : string)
    (cb : CircuitBreaker) :
  1 <= threshold ->
  reachable threshold recovery expected cb ->
  0 <= _failure_count cb
  /\ 0 <= _success_count cb <= 2
  /\ (_state cb = HALF_OPEN -> _success_count cb <= 1)
  /\ (_state cb = CLOSED -> _failure_count cb < threshold).
Proof.
  intros Ht Hr.
  assert (H : breaker_ranges cb /\ failure_threshold cb = threshold).
  { induction Hr as [|cb now func nf Hr [IH Hc]|cb Hr [IH Hc]].
    - split; [|reflexivity]. unfold breaker_ranges. simpl.
      repeat split; try lia; try discriminate.
    - split.
      + apply call_ranges; [lia | exact IH].
      + destruct (call_config cb now func nf) as (-> & _ & _). exact Hc.
    - split; [|exact Hc]. unfold breaker_ranges. simpl.
      repeat split; try lia; try discriminate. }
  destruct H as [(H1 & H2 & H3 & H4) Hc]. rewrite <- Hc. auto.
Qed.

Lemma breaker_counter_ranges_witness :
  0 <= _failure_count half_opened
  /\ 0 <= _success_count half_opened <= 2
  /\ (_state half_opened = HALF_OPEN -> _success_count half_opened <= 1)
  /\ (_state half_opened = CLOSED -> _failure_count half_opened < 3).
Proof.
  apply (breaker_counter_ranges 3 60 "Exception" half_opened); [lia|].
  apply reach_call, opened_reachable.
Defined.

(** X8: an open breaker rejects every call of a sequence in which each
    call arrives before the recovery timeout has passed: no call invokes its
    function, each raises the breaker-open error, and the breaker is left as
    it was. *)
Theorem open_breaker_rejects_all (cb : CircuitBreaker) (events : list (Q * call_outcome * Q)) :
  _state cb = OPEN ->
  Forall (within_recovery cb) events ->
  fst (calls cb events) = cb
  /\ Forall (fun c => invoked c = false /\ outcome c = Raises breaker_open)
            (snd (calls cb events)).
Proof.
  intros Hs. induction 1 as [|[[now func] nf] events Hw _ IH]; simpl.
  - split; [reflexivity | constructor].
  - assert (Hc : call cb now func nf
                 = {| after := cb; outcome := Raises breaker_open; invoked := false |}).
    { unfold call, gate_call. rewrite Hs. unfold within_recovery in Hw. simpl in Hw.
      destruct (Qlt_le_dec _ _); [contradiction | reflexivity]. }
    rewrite Hc. simpl. destruct (calls cb events) as [cb' cs]. simpl in *.
    destruct IH as [-> IH]. split; [reflexivity|]. constructor; [now split | exact IH].
Qed.

Lemma open_breaker_rejects_all_witness :
  fst (calls opened [(4%Q, Returns PyNone, 4%Q); (30%Q, Returns PyNone, 30%Q)]) = opened
  /\ Forall (fun c => invoked c = false /\ outcome c = Raises breaker_open)
            (snd (calls opened [(4%Q, Returns PyNone, 4%Q); (30%Q, Returns PyNone, 30%Q)])).
Proof.
  apply (open_breaker_rejects_all opened); [reflexivity|].
  repeat constructor; unfold within_recovery; simpl; discriminate.
Defined.

(** X9: exceptions that are not of the expected type leave a breaker that
    is not open exactly as it was, however many of them come: each call
    invokes its function and hands the exception on, and nothing is counted. *)
Theorem unexpected_failures_not_counted (cb : CircuitBreaker)
    (events : list (Q * call_outcome * Q)) :
  _state cb <> OPEN ->
  Forall (unexpected_failure (expected_exception cb)) events ->
  fst (calls cb events) = cb
  /\ Forall2 (fun ev c => invoked c = true /\ outcome c = snd (fst ev))
             events (snd (calls cb events)).
Proof.
  intros Hs. induction 1 as [|[[now func] nf] events (e & Hf & Hm) _ IH]; simpl.
  - split; [reflexivity | constructor].
  - simpl in Hf. subst func.
    assert (Hc : call cb now (Raises e) nf
                 = {| after := cb; outcome := Raises e; invoked := true |}).
    { unfold call, gate_call. destruct (_state cb); try congruence; now rewrite Hm. }
    rewrite Hc. simpl. destruct (calls cb events) as [cb' cs]. simpl in *.
    destruct IH as [-> IH]. split; [reflexivity|]. constructor; [now split | exact IH].
Qed.

Lemma unexpected_failures_not_counted_witness :
  fst (calls (init 1 60 "ConnectionError")
         [(1%Q, Raises (ValueError "bad argument"), 1%Q);
          (2%Q, Raises (ValueError "bad argument"), 2%Q)])
  = init 1 60 "ConnectionError"
  /\ Forall2 (fun ev c => invoked c = true /\ outcome c = snd (fst ev))
       [(1%Q, Raises (ValueError "bad argument"), 1%Q);
        (2%Q, Raises (ValueError "bad argument"), 2%Q)]
       (snd (calls (init 1 60 "ConnectionError")
               [(1%Q, Raises (ValueError "bad argument"), 1%Q);
                (2%Q, Raises (ValueError "bad argument"), 2%Q)])).
Proof.
  apply (unexpected_failures_not_counted (init 1 60 "ConnectionError")); [discriminate|].
  repeat constructor; exists (ValueError "bad argument"); split; reflexivity.
Defined.

(** X10: a success restarts the count of a closed breaker: after
    failures that stay below the threshold and one success, another run of
    failures shorter than the threshold leaves the breaker closed, with only
    that run counted. *)
Theorem success_restarts_failure_count (cb : CircuitBreaker)
    (before after_success : list (Q * call_outcome * Q)) (now : Q) (v : pyval) (nf : Q) :
  _state cb = CLOSED ->
  Forall (expected_failure (expected_exception cb)) before ->
  Forall (expected_failure (expected_exception cb)) after_success ->
  _failure_count cb + Z.of_nat (length before) < failure_threshold cb ->
  Z.of_nat (length after_success) < failure_threshold cb ->
  let cb1 := fst (calls cb before) in
  let cb2 := after (call cb1 now (Returns v) nf) in
  let cb3 := fst (calls cb2 after_success) in
  _state cb3 = CLOSED /\ _failure_count cb3 = Z.of_nat (length after_success).
Proof.
  intros Hs Hb Ha Hlb Hla. cbv zeta.
  destruct (calls_below_threshold (expected_exception cb) before cb eq_refl Hs Hb Hlb)
    as (Hs1 & _ & Ht1 & He1 & _).
  set (cb1 := fst (calls cb before)) in *.
  assert (Hc2 : after (call cb1 now (Returns v) nf)
                = update cb1 CLOSED 0 (_last_failure_time cb1) (_success_count cb1)).
  { unfold call, gate_call. rewrite Hs1. simpl. unfold _on_success. now rewrite Hs1. }
  rewrite Hc2.
  destruct (calls_below_threshold (expected_exception cb) after_success
              (update cb1 CLOSED 0 (_last_failure_time cb1) (_success_count cb1)))
    as (Hs3 & Hf3 & _); simpl; auto; try lia.
Qed.

Lemma success_restarts_failure_count_witness :
  let cb1 := fst (calls (init 3 60 "Exception")
                    [(1%Q, Raises (RuntimeError "device offline"), 1%Q);
                     (2%Q, Raises (RuntimeError "device offline"), 2%Q)]) in
  let cb2 := after (call cb1 3 (Returns PyNone) 3) in
  let cb3 := fst (calls cb2 [(4%Q, Raises (RuntimeError "device offline"), 4%Q);
                             (5%Q, Raises (RuntimeError "device offline"), 5%Q)]) in
  _state cb3 = CLOSED /\ _failure_count cb3 = Z.of_nat 2.
Proof.
  apply (success_restarts_failure_count (init 3 60 "Exception")
           [(1%Q, Raises (RuntimeError "device offline"), 1%Q);
            (2%Q, Raises (RuntimeError "device offline"), 2%Q)]
           [(4%Q, Raises (RuntimeError "device offline"), 4%Q);
            (5%Q, Raises (RuntimeError "device offline"), 5%Q)] 3 PyNone 3).
  - reflexivity.
  - repeat constructor; exists (RuntimeError "device offline"); split; reflexivity.
  - repeat constructor; exists (RuntimeError "device offline"); split; reflexivity.
  - simpl. lia.
  - simpl. lia.
Defined.

End BreakerFurther.

(** ** Dictionaries: lookups after updates *)

Section DictFurther.
Context {V : Type}.
Implicit Types (d : PyDict.t V) (k : string) (v : V).

Lemma dict_get_set_eq d k v : PyDict.get (PyDict.set d k v) k = Some v.
Proof.
  induction d as [|[k' v'] d IH]; simpl.
  - now rewrite String.eqb_refl.
  - destruct (String.eqb k' k) eqn:E; simpl; rewrite E; [reflexivity | exact IH].
Qed.

Lemma dict_get_set_ne d k k' v :
  k <> k' -> PyDict.get (PyDict.set d k v) k' = PyDict.get d k'.
Proof.
  intros Hne. induction d as [|[k0 v0] d IH]; simpl.
  - apply String.eqb_neq in Hne. now rewrite Hne.
  - destruct (String.eqb k0 k) eqn:E; simpl.
    + apply String.eqb_eq in E. subst k0. apply String.eqb_neq in Hne. now rewrite Hne.
    + now rewrite IH.
Qed.

Lemma dict_get_None_keys d k : PyDict.get d k = None <-> k ∉ PyDict.keys d.
Proof.
  rewrite <- dict_mem_keys. unfold PyDict.mem. destruct (PyDict.get d k); split;
    congruence.
Qed.

(** With distinct keys, deleting a key drops every entry filed under it. *)
Lemma dict_del_filter d k :
  NoDup (PyDict.keys d) ->
  PyDict.del d k = List.filter (fun kv => negb (String.eqb (fst kv) k)) d.
Proof.
  unfold PyDict.keys. induction d as [|[k0 v0] d IH]; simpl; [reflexivity|].
  intros Hnd. apply NoDup_cons in Hnd as [Hnin Hnd].
  destruct (String.eqb k0 k) eqn:E; simpl.
  - apply String.eqb_eq in E. subst k0. clear IH.
    induction d as [|[k1 v1] d IH']; simpl; [reflexivity|].
    simpl in Hnin. apply not_elem_of_cons in Hnin as [Hne Hnin].
    apply NoDup_cons in Hnd as [_ Hnd].
    assert (String.eqb k1 k = false) as -> by (apply String.eqb_neq; congruence).
    simpl. f_equal. apply IH'; assumption.
  - f_equal. apply IH, Hnd.
Qed.

Lemma dict_NoDup_filter (f : string * V -> bool) d :
  NoDup (PyDict.keys d) -> NoDup (PyDict.keys (List.filter f d)).
Proof.
  unfold PyDict.keys. induction d as [|[k0 v0] d IH]; simpl; [auto|].
  intros Hnd. apply NoDup_cons in Hnd as [Hnin Hnd].
  destruct (f (k0, v0)); simpl; [|auto].
  apply NoDup_cons. split; [|auto]. intros Hin. apply Hnin.
  apply list_elem_of_In in Hin. apply in_map_iff in Hin as ([k1 v1] & Hk & Hin).
  apply filter_In in Hin as [Hin _]. simpl in Hk. subst k1.
  apply list_elem_of_In. apply in_map_iff. exists (k0, v1). split; [reflexivity | exact Hin].
Qed.

(** With distinct keys, an entry of the dictionary is the one its key
    looks up. *)
Lemma dict_In_get d k v :
  NoDup (PyDict.keys d) -> In (k, v) d -> PyDict.get d k = Some v.
Proof.
  unfold PyDict.keys. induction d as [|[k0 v0] d IH]; simpl; [tauto|].
  intros Hnd. apply NoDup_cons in Hnd as [Hnin Hnd]. intros [Heq|Hin].
  - injection Heq as -> ->. now rewrite String.eqb_refl.
  - destruct (String.eqb k0 k) eqn:E; [|now apply IH].
    apply String.eqb_eq in E. subst k0. exfalso. apply Hnin.
    apply list_elem_of_In. apply in_map_iff. exists (k, v). split; [reflexivity | exact Hin].
Qed.

End DictFurther.

(** ** ConnectionPool: cleanup, release, the context manager, statistics *)

Section PoolFurther.
Import Pool.

Lemma dict_get_In {V : Type} (d : PyDict.t V) k v :
  PyDict.get d k = Some v -> In (k, v) d.
Proof.
  induction d as [|[k0 v0] d IH]; simpl; [discriminate|].
  destruct (String.eqb k0 k) eqn:E.
  - apply String.eqb_eq in E. subst k0. intros [= ->]. now left.
  - intros H. right. now apply IH.
Qed.

Lemma dict_del_absent {V : Type} (d : PyDict.t V) k :
  PyDict.mem d k = false -> PyDict.del d k = d.
Proof.
  unfold PyDict.mem. induction d as [|[k0 v0] d IH]; simpl; [reflexivity|].
  destruct (String.eqb k0 k); [discriminate|]. intros H. f_equal. now apply IH.
Qed.

Lemma remove_connection_filter p k :
  NoDup (PyDict.keys (_connections p)) ->
  _remove_connection p k
  = with_connections p
      (List.filter (fun kv => negb (String.eqb (fst kv) k)) (_connections p)).
Proof.
  intros Hnd. unfold _remove_connection. rewrite <- (dict_del_filter _ _ Hnd).
  destruct (PyDict.mem (_connections p) k) eqn:E; [reflexivity|].
  rewrite (dict_del_absent _ _ E). now destruct p.
Qed.

Lemma remove_all_filter ks : forall p,
  NoDup (PyDict.keys (_connections p)) ->
  fold_left _remove_connection ks p
  = with_connections p
      (List.filter (fun kv => negb (existsb (String.eqb (fst kv)) ks)) (_connections p)).
Proof.
  induction ks as [|k ks IH]; intros p Hnd; simpl.
  - rewrite forallb_filter_id; [now destruct p|].
    apply forallb_forall. reflexivity.
  - rewrite (remove_connection_filter p k Hnd).
    rewrite IH by (simpl; now apply dict_NoDup_filter).
    unfold with_connections. simpl. f_equal. clear Hnd IH.
    induction (_connections p) as [|kv d IHd]; simpl; [reflexivity|].
    destruct (String.eqb (fst kv) k); simpl; [exact IHd|].
    destruct (existsb (String.eqb (fst kv)) ks); simpl; [exact IHd | now f_equal].
Qed.

Lemma cleanup_expired_filter (p : ConnectionPool) (current_time : Q) :
  NoDup (PyDict.keys (_connections p)) ->
  _cleanup_expired_connections p current_time
  = with_connections p
      (List.filter (fun kv => negb (is_expired p current_time (snd kv))) (_connections p)).
Proof.
  intros Hnd. unfold _cleanup_expired_connections.
  rewrite (remove_all_filter _ p Hnd). f_equal.
  apply filter_ext_in. intros [k c] Hin. f_equal. simpl.
  unfold expired_connections, is_expired.
  destruct (Qlt_le_dec (idle_timeout p) (current_time - last_used c)) as [Hlt|Hle].
  - apply existsb_exists. exists k. split; [|apply String.eqb_refl].
    unfold PyDict.keys. apply in_map_iff. exists (k, c). split; [reflexivity|].
    apply filter_In. split; [exact Hin|]. simpl.
    now destruct (Qlt_le_dec (idle_timeout p) (current_time - last_used c)) as [|H];
      [|exfalso; exact (Qlt_not_le _ _ Hlt H)].
  - destruct (existsb _ _) eqn:E; [|reflexivity]. exfalso.
    apply existsb_exists in E as (k' & Hk & Heq). apply String.eqb_eq in Heq. subst k'.
    unfold PyDict.keys in Hk. apply in_map_iff in Hk as ([k1 c1] & Hk1 & Hin1).
    simpl in Hk1. subst k1. apply filter_In in Hin1 as [Hin1 Hexp]. simpl in Hexp.
    pose proof (dict_In_get _ _ _ Hnd Hin) as Hg.
    rewrite (dict_In_get _ _ _ Hnd Hin1) in Hg. injection Hg as ->.
    destruct (Qlt_le_dec (idle_timeout p) (current_time - last_used c)) as [Hlt|_];
      [exact (Qlt_not_le _ _ Hlt Hle) | discriminate].
Qed.


(** X11: in a pool whose keys are distinct, the cleanup at
    [current_time] removes exactly the records idle for longer than
    [idle_timeout], active or not, and keeps the others in their order. *)
Theorem cleanup_removes_exactly_expired (p : ConnectionPool) (current_time : Q) :
  NoDup (PyDict.keys (_connections p)) ->
  _cleanup_expired_connections p current_time
  = with_connections p
      (List.filter (fun kv => negb (is_expired p current_time (snd kv))) (_connections p)).
Proof. apply cleanup_expired_filter. Qed.

Lemma used_pool_keys : NoDup (PyDict.keys (_connections used_pool)).
Proof. apply (bool_decide_unpack _). reflexivity. Qed.

Lemma cleanup_removes_exactly_expired_witness :
  _cleanup_expired_connections used_pool 1000
  = with_connections used_pool
      (List.filter (fun kv => negb (is_expired used_pool 1000 (snd kv)))
         (_connections used_pool)).
Proof. apply (cleanup_removes_exactly_expired used_pool 1000 used_pool_keys). Defined.

(** X12: a release changes nothing but the [last_used] of the record it
    names: the keys and their order stay, every other record is looked up as
    before, and releasing an id the pool does not hold leaves the pool as it
    was. *)
Theorem release_refreshes_one_record (p : ConnectionPool) (c : string) (t : Q) :
  PyDict.keys (_connections (_release_connection p c t)) = PyDict.keys (_connections p)
  /\ (PyDict.get (_connections p) c = None -> _release_connection p c t = p)
  /\ (forall info, PyDict.get (_connections p) c = Some info ->
        PyDict.get (_connections (_release_connection p c t)) c = Some (touch info t))
  /\ (forall k, k <> c ->
        PyDict.get (_connections (_release_connection p c t)) k
        = PyDict.get (_connections p) k).
Proof.
  unfold _release_connection.
  destruct (PyDict.get (_connections p) c) as [info|] eqn:Hg; simpl.
  - split; [rewrite dict_keys_set; unfold PyDict.mem; now rewrite Hg|].
    split; [discriminate|]. split.
    + intros info' [= <-]. apply dict_get_set_eq.
    + intros k Hk. now apply dict_get_set_ne.
  - repeat split; auto. discriminate.
Qed.

Lemma release_refreshes_one_record_witness :
  _release_connection used_pool "conn_404_7" 50 = used_pool
  /\ exists info,
       PyDict.get (_connections used_pool) "conn_10000_7" = Some info
       /\ PyDict.get (_connections (_release_connection used_pool "conn_10000_7" 50))
            "conn_10000_7"
          = Some (touch info 50).
Proof.
  split.
  - apply (release_refreshes_one_record used_pool "conn_404_7" 50). reflexivity.
  - eexists. split; [reflexivity|].
    apply (release_refreshes_one_record used_pool "conn_10000_7" 50). reflexivity.
Defined.

Lemma conn_id_of_nonempty t oid : conn_id_of t oid <> EmptyString.
Proof. unfold conn_id_of. simpl. discriminate. Qed.

Lemma remove_fold_keys l : forall p,
  pool_keys_ok p /\ Forall (fun kv => fst kv <> EmptyString) (_connections p) ->
  pool_keys_ok (fold_left _remove_connection l p)
  /\ Forall (fun kv => fst kv <> EmptyString)
            (_connections (fold_left _remove_connection l p)).
Proof.
  induction l as [|c l IH]; intros p H; simpl; [exact H|].
  apply IH. destruct H as [[Hnd Hid] Hne]. unfold _remove_connection.
  destruct (PyDict.mem (_connections p) c); [|now repeat split].
  unfold pool_keys_ok. simpl. repeat split.
  - now apply dict_NoDup_del.
  - now apply dict_Forall_del.
  - now apply dict_Forall_del.
Qed.

(** In a pool reachable from a new one the keys are distinct and not
    empty, and every record is filed under its own id. *)
Lemma reachable_pool_keys max_conn ct idle cleanup oid p :
  reachable max_conn ct idle cleanup oid p ->
  pool_keys_ok p /\ Forall (fun kv => fst kv <> EmptyString) (_connections p).
Proof.
  induction 1 as [|p o _ [[Hnd Hid] Hne]].
  - repeat split; simpl; [apply NoDup_nil_2 | constructor | constructor].
  - destruct o as [t1 t2 t3|c t|c|t|]; simpl.
    + unfold _acquire_connection.
      destruct (first_active _) as [[k c]|] eqn:Hf; simpl.
      * apply find_some in Hf as [Hin _].
        pose proof (proj1 (List.Forall_forall _ _) Hid _ Hin) as Hk.
        pose proof (proj1 (List.Forall_forall _ _) Hne _ Hin) as Hk'.
        unfold pool_keys_ok. simpl. repeat split;
          [now apply dict_NoDup_set | now apply dict_Forall_set | now apply dict_Forall_set].
      * destruct (_ <? _); simpl; [|now repeat split].
        unfold pool_keys_ok. simpl. repeat split;
          [now apply dict_NoDup_set | now apply dict_Forall_set |].
        apply dict_Forall_set; [apply conn_id_of_nonempty | exact Hne].
    + unfold _release_connection.
      destruct (PyDict.get _ _) as [c0|] eqn:Hg; simpl; [|now repeat split].
      apply dict_get_In in Hg.
      pose proof (proj1 (List.Forall_forall _ _) Hid _ Hg) as Hk.
      pose proof (proj1 (List.Forall_forall _ _) Hne _ Hg) as Hk'.
      unfold pool_keys_ok. simpl. repeat split;
        [now apply dict_NoDup_set | now apply dict_Forall_set | now apply dict_Forall_set].
    + apply (remove_fold_keys [c]). now repeat split.
    + apply remove_fold_keys. now repeat split.
    + repeat split; simpl; [apply NoDup_nil_2 | constructor | constructor].
Qed.

(** After an acquire on a reachable pool that admits a connection, the
    pool holds the one record the acquire returned. *)
Lemma acquire_single max_conn ct idle cleanup oid p t1 t2 t3 :
  1 <= max_conn ->
  reachable max_conn ct idle cleanup oid p ->
  exists cid c,
    snd (_acquire_connection p t1 t2 t3) = inl cid
    /\ _connections (fst (_acquire_connection p t1 t2 t3)) = [(cid, c)]
    /\ id c = cid /\ cid <> EmptyString
    /\ (last_used c = t1 \/ last_used c = t3).
Proof.
  intros H1 Hr.
  destruct (reachable_single _ _ _ _ _ _ Hr) as [Ha Hl].
  destruct (reachable_pool_keys _ _ _ _ _ _ Hr) as [[_ Hid] Hne].
  pose proof (reachable_max_connections _ _ _ _ _ _ Hr) as Hm.
  unfold _acquire_connection.
  destruct (_connections p) as [|[k c] rest] eqn:Hd.
  - simpl. rewrite Hm.
    replace (Z.of_nat 0 <? max_conn) with true by (symmetry; apply Z.ltb_lt; lia).
    simpl. eexists _, _. split; [reflexivity|]. split; [reflexivity|].
    split; [reflexivity|]. split; [apply conn_id_of_nonempty | now right].
  - destruct rest; [|simpl in Hl; lia].
    unfold all_active in Ha. rewrite Hd in Ha. apply Forall_cons in Ha as [Hc _].
    apply Forall_cons in Hid as [Hk _]. apply Forall_cons in Hne as [Hk' _].
    simpl in Hc, Hk, Hk'. unfold first_active. simpl. rewrite Hc. simpl.
    rewrite String.eqb_refl. exists k, (touch c t1). repeat split; auto.
Qed.

(** X13: on a pool reachable from a new one with [max_connections >= 1],
    entering the context manager never raises: it returns an id that is not
    empty and is the [id] of the single record the pool then holds; leaving
    the context at [t_exit] keeps that record and sets its [last_used] to
    [t_exit]. *)
Theorem context_round_trip (max_conn : Z) (ct idle cleanup : Q) (oid : Z)
    (p : ConnectionPool) (t1 t2 t3 t_exit : Q) :
  1 <= max_conn ->
  reachable max_conn ct idle cleanup oid p ->
  exists p1 cid c,
    __enter__ p get_connection t1 t2 t3 = (p1, {| conn_id := Some cid |}, inl cid)
    /\ cid <> EmptyString
    /\ _connections p1 = [(cid, c)]
    /\ id c = cid
    /\ _connections (__exit__ p1 {| conn_id := Some cid |} t_exit)
       = [(cid, touch c t_exit)].
Proof.
  intros H1 Hr.
  destruct (acquire_single _ _ _ _ _ p t1 t2 t3 H1 Hr) as (cid & c & Hs & Hd & Hid & Hne & _).
  unfold __enter__. destruct (_acquire_connection p t1 t2 t3) as [p1 r]. simpl in Hs, Hd.
  subst r. exists p1, cid, c. repeat split; auto.
  unfold __exit__. simpl. apply String.eqb_neq in Hne. rewrite Hne.
  unfold _release_connection. rewrite Hd. simpl. now rewrite String.eqb_refl.
Qed.

Lemma context_round_trip_witness :
  exists p1 cid c,
    __enter__ used_pool get_connection 20 20 20 = (p1, {| conn_id := Some cid |}, inl cid)
    /\ cid <> EmptyString
    /\ _connections p1 = [(cid, c)]
    /\ id c = cid
    /\ _connections (__exit__ p1 {| conn_id := Some cid |} 25) = [(cid, touch c 25)].
Proof.
  apply (context_round_trip 2 30 300 60 7 used_pool 20 20 20 25);
    [lia | exact used_pool_reachable].
Defined.

(** X14: for a pool reachable from a new one, [get_stats] reports as many
    active connections as connections, at most one; with
    [max_connections >= 1] the utilization is that count over
    [max_connections] and lies between 0 and 1, and with
    [max_connections <= 0] it is 0. *)
Theorem get_stats_reachable (max_conn : Z) (ct idle cleanup : Q) (oid : Z)
    (p : ConnectionPool) :
  reachable max_conn ct idle cleanup oid p ->
  active_connections (get_stats p) = total_connections (get_stats p)
  /\ 0 <= total_connections (get_stats p) <= 1
  /\ stats_max_connections (get_stats p) = max_conn
  /\ (1 <= max_conn ->
      utilization (get_stats p)
      = (inject_Z (total_connections (get_stats p)) / inject_Z max_conn)%Q
      /\ (0 <= utilization (get_stats p))%Q /\ (utilization (get_stats p) <= 1)%Q)
  /\ (max_conn <= 0 -> utilization (get_stats p) = 0%Q).
Proof.
  intros Hr.
  destruct (reachable_single _ _ _ _ _ _ Hr) as [Ha Hl].
  pose proof (reachable_max_connections _ _ _ _ _ _ Hr) as Hm.
  assert (Hf : List.filter (fun kv => is_active (snd kv)) (_connections p) = _connections p).
  { apply forallb_filter_id. apply forallb_forall. intros kv Hin.
    exact (proj1 (List.Forall_forall _ _) Ha kv Hin). }
  unfold get_stats. simpl. rewrite Hf, Hm.
  split; [reflexivity|]. split; [lia|]. split; [reflexivity|]. split.
  - intros H1. replace (0 <? max_conn) with true by (symmetry; apply Z.ltb_lt; lia).
    split; [reflexivity|].
    destruct max_conn as [|m|m]; try lia.
    unfold Qle, Qdiv, Qmult, Qinv, inject_Z. simpl. split; nia.
  - intros H0. now replace (0 <? max_conn) with false by (symmetry; apply Z.ltb_ge; lia).
Qed.

Lemma get_stats_reachable_witness :
  active_connections (get_stats used_pool) = total_connections (get_stats used_pool)
  /\ 0 <= total_connections (get_stats used_pool) <= 1
  /\ (0 <= utilization (get_stats used_pool))%Q
  /\ (utilization (get_stats used_pool) <= 1)%Q.
Proof.
  destruct (get_stats_reachable 2 30 300 60 7 used_pool used_pool_reachable)
    as (Ha & Ht & _ & Hu & _).
  destruct (Hu ltac:(lia)) as (_ & H0 & H1). auto.
Defined.

Lemma remove_fold_idle_timeout l : forall p,
  idle_timeout (fold_left _remove_connection l p) = idle_timeout p.
Proof.
  induction l as [|c l IH]; intros p; simpl; [reflexivity|].
  rewrite IH. unfold _remove_connection. now destruct (PyDict.mem _ _).
Qed.

Lemma reachable_idle_timeout max_conn ct idle cleanup oid p :
  reachable max_conn ct idle cleanup oid p -> idle_timeout p = idle.
Proof.
  induction 1 as [|p o _ IH]; [reflexivity|].
  rewrite <- IH. destruct o as [t1 t2 t3|c t|c|t|]; simpl; try reflexivity.
  - unfold _acquire_connection. destruct (first_active _) as [[k c]|]; [reflexivity|].
    now destruct (_ <? _).
  - unfold _release_connection. now destruct (PyDict.get _ _).
  - unfold _remove_connection. now destruct (PyDict.mem _ _).
  - apply remove_fold_idle_timeout.
Qed.

(** X15: the cleanup does not know which connections are in use. On a
    pool reachable from a new one with [max_connections >= 1], a connection
    that was acquired and not released is removed by a cleanup that runs more
    than [idle_timeout] after the acquire; the pool is then empty, and the
    release of the id the caller still holds changes nothing. *)
Theorem cleanup_evicts_connection_in_use (max_conn : Z) (ct idle cleanup : Q) (oid : Z)
    (p : ConnectionPool) (t1 t2 t3 current_time t_release : Q) :
  1 <= max_conn ->
  reachable max_conn ct idle cleanup oid p ->
  (idle < current_time - t1)%Q ->
  (idle < current_time - t3)%Q ->
  let p1 := fst (_acquire_connection p t1 t2 t3) in
  let p2 := _cleanup_expired_connections p1 current_time in
  exists cid,
    snd (_acquire_connection p t1 t2 t3) = inl cid
    /\ PyDict.mem (_connections p1) cid = true
    /\ _connections p2 = []
    /\ _release_connection p2 cid t_release = p2.
Proof.
  intros H1 Hr Ht1 Ht3. cbv zeta.
  destruct (acquire_single _ _ _ _ _ p t1 t2 t3 H1 Hr)
    as (cid & c & Hs & Hd & Hid & Hne & Hlu).
  assert (Hr1 : reachable max_conn ct idle cleanup oid (fst (_acquire_connection p t1 t2 t3)))
    by exact (reach_step _ _ _ _ _ p (Acquire t1 t2 t3) Hr).
  set (p1 := fst (_acquire_connection p t1 t2 t3)) in *.
  pose proof (reachable_idle_timeout _ _ _ _ _ _ Hr1) as Hidle.
  exists cid. split; [exact Hs|].
  split; [rewrite Hd; unfold PyDict.mem; simpl; now rewrite String.eqb_refl|].
  assert (Hc : _connections (_cleanup_expired_connections p1 current_time) = []).
  { rewrite cleanup_expired_filter
      by (rewrite Hd; simpl; apply NoDup_singleton).
    simpl. rewrite Hd. simpl. unfold is_expired. rewrite Hidle.
    destruct (Qlt_le_dec idle (current_time - last_used c)) as [_|Hle]; [reflexivity|].
    exfalso. destruct Hlu as [Hl|Hl]; rewrite Hl in Hle;
      [exact (Qlt_not_le _ _ Ht1 Hle) | exact (Qlt_not_le _ _ Ht3 Hle)]. }
  split; [exact Hc|]. unfold _release_connection. now rewrite Hc.
Qed.

Lemma cleanup_evicts_connection_in_use_witness :
  let p1 := fst (_acquire_connection small_pool 10 10 10) in
  let p2 := _cleanup_expired_connections p1 400 in
  exists cid,
    snd (_acquire_connection small_pool 10 10 10) = inl cid
    /\ PyDict.mem (_connections p1) cid = true
    /\ _connections p2 = []
    /\ _release_connection p2 cid 401 = p2.
Proof.
  apply (cleanup_evicts_connection_in_use 2 30 300 60 7 small_pool 10 10 10 400 401);
    [lia | apply reach_init | reflexivity | reflexivity].
Defined.

End PoolFurther.

(** ** HealthChecker: counters, registry, errors, history *)

Section HealthFurther.
Import Health.
Context {World : Type}.
Implicit Types (hc : HealthChecker World) (w : World).




Lemma dict_del_set_fresh {V : Type} (d : PyDict.t V) k v :
  PyDict.mem d k = false -> PyDict.del (PyDict.set d k v) k = d.
Proof.
  unfold PyDict.mem. induction d as [|[k0 v0] d IH]; simpl.
  - now rewrite String.eqb_refl.
  - destruct (String.eqb k0 k) eqn:E; [discriminate|]. simpl. rewrite E.
    intros H. f_equal. now apply IH.
Qed.

(** X17: the registry of checks. Removing a name that is not registered
    changes nothing and raises nothing; adding a check under a fresh name and
    removing it again gives back the checker as it was; and [add_check] files
    the check under its name with both counters at 0, keeping the order of
    the names when the name was registered before. *)
Theorem registry_add_remove hc (check : HealthCheck World) :
  (forall nm, PyDict.mem (_checks hc) nm = false -> remove_check hc nm = (hc, None))
  /\ (PyDict.mem (_checks hc) (name check) = false ->
      _failure_counts hc !! name check = None ->
      _recovery_counts hc !! name check = None ->
      remove_check (add_check hc check) (name check) = (hc, None))
  /\ (PyDict.get (_checks (add_check hc check)) (name check) = Some check
      /\ _failure_counts (add_check hc check) !! name check = Some 0
      /\ _recovery_counts (add_check hc check) !! name check = Some 0
      /\ (PyDict.mem (_checks hc) (name check) = true ->
          PyDict.keys (_checks (add_check hc check)) = PyDict.keys (_checks hc))).
Proof.
  split; [|split].
  - intros nm Hm. unfold remove_check. now rewrite Hm.
  - intros Hm Hf Hr. unfold remove_check, add_check. simpl.
    unfold PyDict.mem at 1. rewrite dict_get_set_eq, !lookup_insert_eq.
    rewrite (dict_del_set_fresh _ _ _ Hm), !delete_insert_eq, !delete_id by assumption.
    now destruct hc.
  - unfold add_check. simpl. rewrite dict_get_set_eq, !lookup_insert_eq.
    repeat split. intros Hm. rewrite dict_keys_set. now rewrite Hm.
Qed.

Lemma check_all_error w checks : forall tl tl' e,
  tally_covers tl checks ->
  check_all w checks tl = inr (tl', e) ->
  isinstance e "Exception" = false
  /\ exists nm check, In (nm, check) checks /\ check_func check w = Raises e.
Proof.
  induction checks as [|[n0 c0] checks IH]; intros tl tl' e Hcov; simpl; [discriminate|].
  apply Forall_cons in Hcov as [[Hf Hr] Hcov]. simpl in Hf, Hr.
  destruct (_execute_check c0 w) as [b|e0] eqn:Hx.
  - destruct (check_one_ok w n0 c0 tl Hf Hr (ex_intro _ b Hx)) as (tl1 & H1 & _ & Hkf & Hkr).
    rewrite H1. intros Hall. destruct (IH tl1 tl' e) as (Hi & nm & check & Hin & Hc); auto.
    + eapply Forall_impl; [exact Hcov|]. intros kv [? ?]. split; auto.
    + split; [exact Hi|]. exists nm, check. split; [now right | exact Hc].
  - unfold check_one. rewrite Hx. intros [= <- <-].
    unfold _execute_check in Hx. destruct (check_func c0 w) as [v|e1] eqn:Hc; [discriminate|].
    destruct (isinstance e1 "Exception") eqn:Hi; [discriminate|]. injection Hx as <-.
    split; [exact Hi|]. exists n0, c0. split; [now left | exact Hc].
Qed.

(** X18: a run of [check_health] on a checker whose counters are in place
    raises only what a registered probe raised outside [Exception] (never a
    [KeyError], never an exception a probe raised within [Exception]); when it
    raises, the history and the current status stay as they were. *)
Theorem check_health_raises_only_escapes hc w (now : Q) (e : pyexn) :
  wf_checker hc ->
  snd (check_health hc w now) = inr e ->
  isinstance e "Exception" = false
  /\ (exists nm check, In (nm, check) (_checks hc) /\ check_func check w = Raises e)
  /\ _status_history (fst (check_health hc w now)) = _status_history hc
  /\ get_status (fst (check_health hc w now)) = get_status hc.
Proof.
  intros Hwf. unfold check_health, get_status.
  destruct (_checks hc) as [|kv checks] eqn:Hc; [discriminate|].
  destruct (check_all w (kv :: checks) _) as [tl|[tl e0]] eqn:Hall; [discriminate|].
  simpl. intros [= ->].
  apply check_all_error in Hall; [|unfold wf_checker in Hwf; now rewrite Hc in Hwf].
  destruct Hall as [Hi Hex]. now repeat split.
Qed.

(** X19: [get_status_history(limit)] with a positive limit returns the
    last [min(limit, len)] entries of the history, in their order; with a
    limit of zero or below it returns the whole history. *)
Theorem get_status_history_slice hc (limit : Z) :
  (limit <= 0 -> get_status_history hc limit = _status_history hc)
  /\ (0 < limit ->
      (exists older, _status_history hc = older ++ get_status_history hc limit)
      /\ Z.of_nat (length (get_status_history hc limit))
         = Z.min limit (Z.of_nat (length (_status_history hc)))).
Proof.
  unfold get_status_history. split.
  - intros H. now replace (0 <? limit) with false by (symmetry; apply Z.ltb_ge; lia).
  - intros H. replace (0 <? limit) with true by (symmetry; apply Z.ltb_lt; lia). split.
    + eexists. symmetry. apply firstn_skipn.
    + rewrite length_skipn. lia.
Qed.

Lemma trim_history_last {A : Type} (h : list A) (x : A) :
  exists kept, trim_history (h ++ [x]) = kept ++ [x].
Proof.
  unfold trim_history. destruct (1000 <? length (h ++ [x]))%nat eqn:E; [|eauto].
  apply Nat.ltb_lt in E. rewrite length_app in *. simpl in *.
  rewrite skipn_app.
  replace (length h + 1 - 500 - length h)%nat with O by lia. simpl. eauto.
Qed.

(** X20: after a run over a registry that is not empty (counters in
    place, probes contained), the most recent entry of the history, as
    [get_status_history(1)] returns it, is the entry of that run, and
    [get_status] returns the status the run returned. *)
Theorem latest_history_entry hc w (now : Q) :
  wf_checker hc -> probes_contained w (_checks hc) -> _checks hc <> [] ->
  exists status,
    snd (check_health hc w now) = inl status
    /\ get_status (fst (check_health hc w now)) = status
    /\ get_status_history (fst (check_health hc w now)) 1
       = [(now, "overall"%string, status)].
Proof.
  intros Hwf Hprobe Hne.
  destruct (check_health_run hc w now Hwf Hprobe Hne) as (Hs & Hcur & Hh).
  eexists. split; [exact Hs|]. split; [exact Hcur|].
  unfold get_status_history. rewrite Hh.
  destruct (trim_history_last (_status_history hc)
              (now, "overall"%string, status_of_ratio (pass_ratio w (_checks hc))))
    as [kept ->].
  change (0 <? 1) with true. cbv iota.
  replace (length (kept ++ [(now, "overall"%string,
                             status_of_ratio (pass_ratio w (_checks hc)))])
           - Z.to_nat 1)%nat
    with (length kept) by (rewrite length_app; simpl; lia).
  rewrite skipn_app, skipn_all, Nat.sub_diag. reflexivity.
Qed.

End HealthFurther.

Section HealthFurtherWitnesses.
Import Health.


Lemma registry_add_remove_witness :
  remove_check one_probe "wda" = (one_probe, None)
  /\ remove_check (add_check one_probe wda_probe) "wda" = (one_probe, None).
Proof.
  destruct (registry_add_remove one_probe wda_probe) as (Habsent & Hround & _).
  split.
  - apply Habsent. reflexivity.
  - apply Hround; reflexivity.
Defined.

Lemma check_health_raises_only_escapes_witness :
  let hc := add_check (World := unit) init
              {| name := "usb"; check_func := fun _ => Raises KeyboardInterrupt;
                 timeout := 5; interval := 30;
                 failure_threshold := 3; recovery_threshold := 2 |} in
  isinstance KeyboardInterrupt "Exception" = false
  /\ _status_history (fst (check_health hc tt 5)) = _status_history hc
  /\ get_status (fst (check_health hc tt 5)) = get_status hc.
Proof.
  cbv zeta.
  match goal with |- _ /\ _status_history (fst (check_health ?hc _ _)) = _ /\ _ =>
    destruct (check_health_raises_only_escapes hc tt 5 KeyboardInterrupt)
      as (Hi & _ & Hh & Hs)
  end.
  - apply reachable_checker_inv, cr_add, cr_init.
  - reflexivity.
  - now repeat split.
Defined.

Lemma get_status_history_slice_witness :
  get_status_history (fst (check_health two_probes tt 5)) (-3)
  = _status_history (fst (check_health two_probes tt 5))
  /\ Z.of_nat (length (get_status_history (fst (check_health two_probes tt 5)) 7))
     = Z.min 7 (Z.of_nat (length (_status_history (fst (check_health two_probes tt 5))))).
Proof.
  destruct (get_status_history_slice (fst (check_health two_probes tt 5)) (-3)) as [Hall _].
  destruct (get_status_history_slice (fst (check_health two_probes tt 5)) 7) as [_ Hpos].
  split; [apply Hall; lia | apply Hpos; lia].
Defined.

Lemma latest_history_entry_witness :
  exists status,
    snd (check_health two_probes tt 5) = inl status
    /\ get_status (fst (check_health two_probes tt 5)) = status
    /\ get_status_history (fst (check_health two_probes tt 5)) 1
       = [(5%Q, "overall"%string, status)].
Proof.
  apply (latest_history_entry two_probes tt 5).
  - apply reachable_checker_inv, two_probes_reachable.
  - exact two_probes_contained.
  - discriminate.
Defined.

End HealthFurtherWitnesses.

(** ** TimeoutManager: the recorded times and the suggested timeout *)

Section TimeoutFurther.
Import Timeout.

Lemma py_max_Qmax (a b : Q) : py_max a b = Qmax a b.
Proof.
  unfold py_max, Qmax, GenericMinMax.gmax.
  destruct (Qlt_le_dec a b) as [Hlt|Hle]; destruct (a ?= b)%Q eqn:E; try reflexivity.
  - apply Qeq_alt in E. exfalso. rewrite E in Hlt. exact (Qlt_irrefl _ Hlt).
  - apply Qgt_alt in E. exfalso. exact (Qlt_irrefl _ (Qlt_trans _ _ _ Hlt E)).
  - apply Qlt_alt in E. exfalso. exact (Qlt_not_le _ _ E Hle).
Qed.

(** X21: a wrapped call hands on what the guarded call did and records
    its duration whether it returned or raised. The history of the function
    then ends with that duration and has at most 100 entries: below 100
    entries the duration is appended, from 100 on only the last 49 earlier
    entries are kept before it; the histories of other functions are
    untouched. *)
Theorem wrapper_records_duration (tm : TimeoutManager) (timeout : option Q)
    (func_name : string) (body : call_outcome) (start_time end_time : Q) :
  let tm' := fst (wrapper tm timeout func_name body start_time end_time) in
  let old := default [] (_timeout_stats tm !! func_name) in
  snd (wrapper tm timeout func_name body start_time end_time) = body
  /\ default_timeout tm' = default_timeout tm
  /\ (forall n, n <> func_name -> _timeout_stats tm' !! n = _timeout_stats tm !! n)
  /\ exists times,
       _timeout_stats tm' !! func_name = Some times
       /\ last times = Some (end_time - start_time)%Q
       /\ (length times <= 100)%nat
       /\ ((length old < 100)%nat -> times = old ++ [(end_time - start_time)%Q])
       /\ ((100 <= length old)%nat ->
           times = skipn (length old - 49) old ++ [(end_time - start_time)%Q]
           /\ length times = 50%nat).
Proof.
  cbv zeta. unfold wrapper, _record_execution_time. simpl.
  set (old := default [] (_timeout_stats tm !! func_name)).
  set (x := (end_time - start_time)%Q).
  split; [reflexivity|]. split; [reflexivity|].
  split; [intros n Hn; now rewrite lookup_insert_ne|].
  rewrite lookup_insert_eq. eexists. split; [reflexivity|].
  rewrite length_app. simpl.
  destruct (100 <? length old + 1)%nat eqn:E.
  - apply Nat.ltb_lt in E. rewrite skipn_app.
    replace (length old + 1 - 50 - length old)%nat with O by lia. simpl.
    rewrite last_snoc. split; [reflexivity|].
    rewrite length_app, length_skipn. simpl.
    split; [lia|]. split; [lia|]. intros _.
    replace (length old + 1 - 50)%nat with (length old - 49)%nat by lia.
    split; [reflexivity | lia].
  - apply Nat.ltb_ge in E. rewrite last_snoc. split; [reflexivity|].
    rewrite length_app. simpl. split; [lia|]. split; [reflexivity | lia].
Qed.

(** X22: [get_suggested_timeout] returns the default timeout for a
    function with no recorded time; otherwise it returns
    [max(min(3 * average, 2 * default), 1)], which is at least 1 second and at
    most the larger of 1 and twice the default. *)
Theorem suggested_timeout_bounds (tm : TimeoutManager) (func_name : string) :
  (_timeout_stats tm !! func_name = None \/ _timeout_stats tm !! func_name = Some [] ->
   get_suggested_timeout tm func_name = default_timeout tm)
  /\ (forall times,
        _timeout_stats tm !! func_name = Some times -> times <> [] ->
        get_suggested_timeout tm func_name
        = Qmax (Qmin (py_sum times / inject_Z (Z.of_nat (length times)) * 3)
                     (default_timeout tm * 2)) 1
        /\ (1 <= get_suggested_timeout tm func_name)%Q
        /\ (get_suggested_timeout tm func_name <= Qmax 1 (default_timeout tm * 2))%Q).
Proof.
  unfold get_suggested_timeout. split.
  - intros [-> | ->]; reflexivity.
  - intros times -> Hne. destruct times as [|x times]; [congruence|].
    rewrite py_min_Qmin, py_max_Qmax. split; [reflexivity|]. split.
    + apply Q.le_max_r.
    + apply Q.max_lub; [|apply Q.le_max_l].
      apply (Qle_trans _ (default_timeout tm * 2)); [apply Q.le_min_r | apply Q.le_max_r].
Qed.

Lemma suggested_timeout_bounds_witness :
  get_suggested_timeout (init 30) "install" = 30%Q
  /\ (1 <= get_suggested_timeout
             (fst (wrapper (init 30) None "install" (Returns PyNone) 0 4)) "install")%Q
  /\ (get_suggested_timeout
        (fst (wrapper (init 30) None "install" (Returns PyNone) 0 4)) "install"
      <= Qmax 1 (30 * 2))%Q.
Proof.
  destruct (suggested_timeout_bounds (init 30) "install") as [Hnone _].
  destruct (suggested_timeout_bounds
              (fst (wrapper (init 30) None "install" (Returns PyNone) 0 4)) "install")
    as [_ Hsome].
  split; [apply Hnone; now left|].
  destruct (Hsome [(4 - 0)%Q] eq_refl ltac:(discriminate)) as (_ & H1 & H2).
  split; [exact H1 | exact H2].
Defined.

End TimeoutFurther.

(** ** Dictionaries: membership after updates *)

Section DictMembership.
Context {V : Type}.
Implicit Types (d : PyDict.t V) (k : string) (v : V).

Lemma dict_get_del_ne d k n : k <> n -> PyDict.get (PyDict.del d k) n = PyDict.get d n.
Proof.
  intros Hne. induction d as [|[k0 v0] d IH]; simpl; [reflexivity|].
  destruct (String.eqb k0 k) eqn:E; simpl.
  - apply String.eqb_eq in E. subst k0. apply String.eqb_neq in Hne. now rewrite Hne.
  - now rewrite IH.
Qed.

Lemma dict_get_del_eq d k : NoDup (PyDict.keys d) -> PyDict.get (PyDict.del d k) k = None.
Proof.
  intros Hnd. apply dict_get_None_keys. now apply dict_NoDup_del.
Qed.

Lemma dict_mem_set d k v n :
  PyDict.mem (PyDict.set d k v) n = String.eqb k n || PyDict.mem d n.
Proof.
  unfold PyDict.mem. destruct (String.eqb k n) eqn:E.
  - apply String.eqb_eq in E. subst n. now rewrite dict_get_set_eq.
  - apply String.eqb_neq in E. now rewrite dict_get_set_ne.
Qed.

Lemma dict_mem_del d k n :
  NoDup (PyDict.keys d) ->
  PyDict.mem (PyDict.del d k) n = negb (String.eqb k n) && PyDict.mem d n.
Proof.
  intros Hnd. unfold PyDict.mem. destruct (String.eqb k n) eqn:E.
  - apply String.eqb_eq in E. subst n. now rewrite dict_get_del_eq.
  - apply String.eqb_neq in E. now rewrite dict_get_del_ne.
Qed.

Lemma dict_set_same d k v : PyDict.get d k = Some v -> PyDict.set d k v = d.
Proof.
  induction d as [|[k0 v0] d IH]; simpl; [discriminate|].
  destruct (String.eqb k0 k) eqn:E.
  - now intros [= ->].
  - intros H. f_equal. now apply IH.
Qed.

Lemma dict_set_set d k v v' : PyDict.set (PyDict.set d k v) k v' = PyDict.set d k v'.
Proof.
  induction d as [|[k0 v0] d IH]; simpl.
  - now rewrite String.eqb_refl.
  - destruct (String.eqb k0 k) eqn:E; simpl; rewrite E; [reflexivity | now f_equal].
Qed.

End DictMembership.

(** ** ResourceManager: consistency, reference counts, cleanup *)

Section ResourceFurther.
Import Resource.

Lemma mem_get {V : Type} (d : PyDict.t V) k :
  PyDict.mem d k = true <-> exists v, PyDict.get d k = Some v.
Proof.
  unfold PyDict.mem. destruct (PyDict.get d k); split; eauto; try discriminate.
  now intros [v H].
Qed.

Lemma register_inv rm name resource cleanup now :
  manager_inv rm -> manager_inv (register_resource rm name resource cleanup now).
Proof.
  intros (Hr & Hm & Heq & Hrc). unfold manager_inv, register_resource. simpl.
  split; [now apply dict_NoDup_set|]. split; [now apply dict_NoDup_set|]. split.
  - intros n. rewrite !dict_mem_set. now rewrite Heq.
  - apply dict_Forall_set; [simpl; lia | exact Hrc].
Qed.

Lemma set_metadata_inv rm name meta meta' :
  manager_inv rm ->
  PyDict.get (_resource_metadata rm) name = Some meta ->
  0 <= ref_count meta' ->
  manager_inv {| _resources := _resources rm;
                 _resource_metadata := PyDict.set (_resource_metadata rm) name meta' |}.
Proof.
  intros (Hr & Hm & Heq & Hrc) Hg Hpos. unfold manager_inv. simpl.
  split; [exact Hr|]. split; [now apply dict_NoDup_set|]. split.
  - intros n. rewrite dict_mem_set, Heq. destruct (String.eqb name n) eqn:E; [|reflexivity].
    apply String.eqb_eq in E. subst n. unfold PyDict.mem. now rewrite Hg.
  - now apply dict_Forall_set.
Qed.

(** What one [unregister_resource] does to a consistent manager. *)
Lemma unregister_spec rm name :
  manager_inv rm ->
  let c := unregister_resource rm name in
  manager_inv (manager c)
  /\ (forall n, n <> name ->
        PyDict.get (_resources (manager c)) n = PyDict.get (_resources rm) n
        /\ PyDict.get (_resource_metadata (manager c)) n
           = PyDict.get (_resource_metadata rm) n)
  /\ (raised c = None ->
      PyDict.get (_resources (manager c)) name = None
      /\ PyDict.get (_resource_metadata (manager c)) name = None)
  /\ (forall e, raised c = Some e ->
        manager c = rm /\ isinstance e "Exception" = false
        /\ exists resource meta f,
             PyDict.get (_resources rm) name = Some resource
             /\ PyDict.get (_resource_metadata rm) name = Some meta
             /\ cleanup_func meta = Some f /\ f resource = Raises e)
  /\ (forall n, In n (cleanups c) ->
        n = name /\ exists meta, PyDict.get (_resource_metadata rm) name = Some meta
                                 /\ cleanup_func meta <> None).
Proof.
  intros Hinv. pose proof Hinv as (Hr & Hm & Heq & Hrc). cbv zeta.
  unfold unregister_resource.
  destruct (PyDict.get (_resources rm) name) as [resource|] eqn:Hg.
  - assert (Hmem : PyDict.mem (_resource_metadata rm) name = true).
    { rewrite <- Heq. unfold PyDict.mem. now rewrite Hg. }
    destruct (proj1 (mem_get _ _) Hmem) as [meta Hgm]. rewrite Hgm.
    assert (Hrem : forall calls,
      let c := remove_entries rm name calls in
      manager_inv (manager c)
      /\ (forall n, n <> name ->
            PyDict.get (_resources (manager c)) n = PyDict.get (_resources rm) n
            /\ PyDict.get (_resource_metadata (manager c)) n
               = PyDict.get (_resource_metadata rm) n)
      /\ (PyDict.get (_resources (manager c)) name = None
          /\ PyDict.get (_resource_metadata (manager c)) name = None)
      /\ raised c = None /\ cleanups c = calls).
    { intros calls. cbv zeta. unfold remove_entries. rewrite Hmem. simpl.
      split; [|split; [|split; [|split]]]; auto.
      - unfold manager_inv. simpl.
        split; [now apply dict_NoDup_del|]. split; [now apply dict_NoDup_del|]. split.
        + intros n. rewrite !dict_mem_del by assumption. now rewrite Heq.
        + now apply dict_Forall_del.
      - intros n Hn. split; now apply dict_get_del_ne.
      - split; now apply dict_get_del_eq. }
    assert (Hdone : forall calls,
      (forall n, In n calls -> n = name /\ cleanup_func meta <> None) ->
      let c := remove_entries rm name calls in
      manager_inv (manager c)
      /\ (forall n, n <> name ->
            PyDict.get (_resources (manager c)) n = PyDict.get (_resources rm) n
            /\ PyDict.get (_resource_metadata (manager c)) n
               = PyDict.get (_resource_metadata rm) n)
      /\ (raised c = None ->
          PyDict.get (_resources (manager c)) name = None
          /\ PyDict.get (_resource_metadata (manager c)) name = None)
      /\ (forall e, raised c = Some e ->
            manager c = rm /\ isinstance e "Exception" = false
            /\ exists resource0 meta0 f,
                 Some resource = Some resource0
                 /\ Some meta = Some meta0
                 /\ cleanup_func meta0 = Some f /\ f resource0 = Raises e)
      /\ (forall n, In n (cleanups c) ->
            n = name /\ exists meta0, Some meta = Some meta0
                                      /\ cleanup_func meta0 <> None)).
    { intros calls Hcalls. cbv zeta.
      destruct (Hrem calls) as (H1 & H2 & H3 & H4 & H5). rewrite H4, H5.
      split; [exact H1|]. split; [exact H2|]. split; [intros _; exact H3|].
      split; [discriminate|]. intros n Hn. destruct (Hcalls n Hn) as [-> Hc]. eauto. }
    destruct (cleanup_func meta) as [f|] eqn:Hcf.
    + assert (Hone : forall n, In n [name] -> n = name /\ Some f <> None)
        by (intros n [<-|[]]; split; [reflexivity | discriminate]).
      destruct (f resource) as [v|e] eqn:Hf;
        [apply Hdone, Hone | destruct (isinstance e "Exception") eqn:Hi;
                              [apply Hdone, Hone|]].
      simpl. split; [exact Hinv|]. split; [auto|]. split; [discriminate|]. split.
      * intros e' [= <-]. split; [reflexivity|]. split; [exact Hi|].
        exists resource, meta, f. now repeat split.
      * intros n [<-|[]]. split; [reflexivity|]. exists meta.
        split; [reflexivity | rewrite Hcf; discriminate].
    + apply Hdone. intros n [].
  - simpl. split; [exact Hinv|]. split; [auto|]. split.
    + intros _. split; [exact Hg|].
      apply dict_get_None_keys. rewrite <- dict_mem_keys, <- Heq.
      unfold PyDict.mem. rewrite Hg. discriminate.
    + split; [discriminate | intros n []].
Qed.

Lemma unregister_all_spec names : forall rm calls,
  manager_inv rm ->
  let c := unregister_all rm names calls in
  manager_inv (manager c)
  /\ (forall n, ~ In n names ->
        PyDict.get (_resources (manager c)) n = PyDict.get (_resources rm) n
        /\ PyDict.get (_resource_metadata (manager c)) n
           = PyDict.get (_resource_metadata rm) n)
  /\ (raised c = None ->
      forall n, In n names ->
        PyDict.get (_resources (manager c)) n = None
        /\ PyDict.get (_resource_metadata (manager c)) n = None)
  /\ (forall e, raised c = Some e -> isinstance e "Exception" = false)
  /\ (forall n, In n (cleanups c) -> In n calls \/ In n names).
Proof.
  induction names as [|k rest IH]; intros rm calls Hinv; cbv zeta; simpl.
  - split; [exact Hinv|]. split; [auto|]. split; [intros _ n []|].
    split; [discriminate | auto].
  - destruct (unregister_spec rm k Hinv) as (H1 & H2 & H3 & H4 & H5).
    destruct (raised (unregister_resource rm k)) as [e|] eqn:Hraised; simpl.
    + split; [exact H1|]. split; [intros n Hn; apply H2; intros ->; apply Hn; now left|].
      split; [discriminate|]. split.
      * intros e' [= <-]. now destruct (H4 e eq_refl) as (_ & Hi & _).
      * intros n Hn. apply in_app_or in Hn as [Hn|Hn]; [now left|].
        destruct (H5 n Hn) as [-> _]. right. now left.
    + destruct (IH (manager (unregister_resource rm k))
                  (calls ++ cleanups (unregister_resource rm k)) H1)
        as (I1 & I2 & I3 & I4 & I5).
      split; [exact I1|]. split; [|split; [|split]].
      * intros n Hn. destruct (I2 n (fun Hr => Hn (or_intror Hr))) as [-> ->]. apply H2.
        intros ->. apply Hn. now left.
      * intros Hnone n [<-|Hn]; [|now apply I3].
        destruct (in_dec String.string_dec k rest) as [Hin|Hnin]; [now apply I3|].
        destruct (I2 k Hnin) as [-> ->]. now apply H3.
      * exact I4.
      * intros n Hn. destruct (I5 n Hn) as [Hc|Hr]; [|right; now right].
        apply in_app_or in Hc as [Hc|Hc]; [now left|].
        destruct (H5 n Hc) as [-> _]. right. now left.
Qed.

Lemma reachable_manager_inv rm : reachable rm -> manager_inv rm.
Proof.
  induction 1 as [|rm name resource cleanup now _ IH|rm name _ IH|rm name _ IH
                  |rm name _ IH|rm max_age t _ IH].
  - unfold manager_inv. simpl.
    split; [apply NoDup_nil_2|]. split; [apply NoDup_nil_2|]. split; [auto | constructor].
  - now apply register_inv.
  - now apply unregister_spec.
  - unfold get_resource. destruct (PyDict.get (_resources rm) name); [|exact IH].
    destruct (PyDict.get (_resource_metadata rm) name) as [meta|] eqn:Hg; [|exact IH].
    simpl. apply (set_metadata_inv rm name meta); [exact IH | exact Hg |].
    simpl. destruct IH as (_ & _ & _ & Hrc).
    apply dict_get_In in Hg. pose proof (proj1 (List.Forall_forall _ _) Hrc _ Hg). simpl in *.
    lia.
  - unfold release_resource.
    destruct (PyDict.get (_resource_metadata rm) name) as [meta|] eqn:Hg; [|exact IH].
    apply (set_metadata_inv rm name meta); [exact IH | exact Hg | simpl; lia].
  - now apply unregister_all_spec.
Qed.

(** X23: in every manager reachable from a new one, the resources and
    their metadata have the same names, each once, and no reference count is
    negative; so [get_resource] never raises, and [unregister_resource] and
    [cleanup_unused_resources] raise nothing that [except Exception] would
    catch: no [KeyError], only what a cleanup function raised beyond
    [Exception]. *)
Theorem resource_manager_consistent (rm : ResourceManager) :
  reachable rm ->
  manager_inv rm
  /\ (forall name, exists r, snd (get_resource rm name) = inl r)
  /\ (forall name e,
        raised (unregister_resource rm name) = Some e -> isinstance e "Exception" = false)
  /\ (forall max_age current_time e,
        raised (cleanup_unused_resources rm max_age current_time) = Some e ->
        isinstance e "Exception" = false).
Proof.
  intros Hr. pose proof (reachable_manager_inv rm Hr) as Hinv.
  split; [exact Hinv|]. split; [|split].
  - intros name. unfold get_resource.
    destruct (PyDict.get (_resources rm) name) as [resource|] eqn:Hg; [|eauto].
    destruct Hinv as (_ & _ & Heq & _).
    assert (Hm : PyDict.mem (_resource_metadata rm) name = true)
      by (rewrite <- Heq; unfold PyDict.mem; now rewrite Hg).
    apply mem_get in Hm as [meta Hm]. rewrite Hm. eauto.
  - intros name e He. destruct (unregister_spec rm name Hinv) as (_ & _ & _ & H4 & _).
    now destruct (H4 e He) as (_ & Hi & _).
  - intros max_age t e He.
    destruct (unregister_all_spec
                (PyDict.keys (List.filter (fun kv => unused max_age t (snd kv))
                                          (_resource_metadata rm))) rm [] Hinv)
      as (_ & _ & _ & H4 & _).
    exact (H4 e He).
Qed.

Lemma two_resources_reachable : reachable two_resources.
Proof. apply reach_get. repeat apply reach_register. apply reach_init. Qed.

Lemma resource_manager_consistent_witness :
  manager_inv two_resources
  /\ exists r, snd (get_resource two_resources "socket") = inl r.
Proof.
  destruct (resource_manager_consistent two_resources two_resources_reachable)
    as (Hinv & Hget & _).
  split; [exact Hinv | apply Hget].
Defined.

(** X24: on a consistent manager, [get_resource] of a registered name
    returns the resource, and releasing it afterwards gives back the manager
    as it was; releasing a name whose reference count is 0 changes nothing, so
    a count never goes below 0; and for a name that is not registered
    [get_resource] returns [None] and changes nothing. *)
Theorem get_release_round_trip (rm : ResourceManager) (name : string) :
  manager_inv rm ->
  (forall resource,
     PyDict.get (_resources rm) name = Some resource ->
     snd (get_resource rm name) = inl (Some resource)
     /\ release_resource (fst (get_resource rm name)) name = rm)
  /\ (forall meta,
        PyDict.get (_resource_metadata rm) name = Some meta ->
        ref_count meta = 0 ->
        release_resource rm name = rm)
  /\ (PyDict.get (_resources rm) name = None ->
      get_resource rm name = (rm, inl None) /\ release_resource rm name = rm).
Proof.
  intros (Hr & Hm & Heq & Hrc). split; [|split].
  - intros resource Hg. unfold get_resource. rewrite Hg.
    assert (Hmem : PyDict.mem (_resource_metadata rm) name = true)
      by (rewrite <- Heq; unfold PyDict.mem; now rewrite Hg).
    apply mem_get in Hmem as [meta Hgm]. rewrite Hgm. simpl.
    split; [reflexivity|]. unfold release_resource. simpl.
    rewrite dict_get_set_eq. simpl. rewrite dict_set_set.
    pose proof (proj1 (List.Forall_forall _ _) Hrc _ (dict_get_In _ _ _ Hgm)) as Hpos.
    simpl in Hpos.
    replace (Z.max 0 (ref_count meta + 1 - 1)) with (ref_count meta) by lia.
    rewrite dict_set_same; [now destruct rm | rewrite Hgm; now destruct meta].
  - intros meta Hgm H0. unfold release_resource. rewrite Hgm, H0. simpl.
    rewrite dict_set_same; [now destruct rm|].
    rewrite Hgm. destruct meta. simpl in H0. now subst.
  - intros Hg. unfold get_resource, release_resource. rewrite Hg.
    split; [reflexivity|].
    assert (Hmem : PyDict.mem (_resource_metadata rm) name = false)
      by (rewrite <- Heq; unfold PyDict.mem; now rewrite Hg).
    unfold PyDict.mem in Hmem.
    now destruct (PyDict.get (_resource_metadata rm) name).
Qed.

Lemma get_release_round_trip_witness :
  snd (get_resource two_resources "socket") = inl (Some (PyObj true "socket"))
  /\ release_resource (fst (get_resource two_resources "socket")) "socket" = two_resources
  /\ release_resource two_resources "log" = two_resources.
Proof.
  destruct (get_release_round_trip two_resources "socket"
              (reachable_manager_inv _ two_resources_reachable)) as (Hget & _ & _).
  destruct (get_release_round_trip two_resources "log"
              (reachable_manager_inv _ two_resources_reachable)) as (_ & Hzero & _).
  destruct (Hget (PyObj true "socket") eq_refl) as [H1 H2].
  split; [exact H1|]. split; [exact H2|].
  eapply Hzero; reflexivity.
Defined.




(** X26: on a consistent manager, unregistering a resource whose cleanup
    function raises within [Exception] still removes the resource and its
    metadata and raises nothing; when the cleanup function raises beyond
    [Exception], the error leaves [unregister_resource] and the resource
    stays registered as it was. *)
Theorem unregister_cleanup_errors (rm : ResourceManager) (name : string)
    (resource : pyval) (meta : metadata) (f : pyval -> call_outcome) (e : pyexn) :
  manager_inv rm ->
  PyDict.get (_resources rm) name = Some resource ->
  PyDict.get (_resource_metadata rm) name = Some meta ->
  cleanup_func meta = Some f ->
  f resource = Raises e ->
  (isinstance e "Exception" = true ->
   let c := unregister_resource rm name in
   raised c = None /\ cleanups c = [name]
   /\ PyDict.get (_resources (manager c)) name = None
   /\ PyDict.get (_resource_metadata (manager c)) name = None)
  /\ (isinstance e "Exception" = false ->
      unregister_resource rm name
      = {| manager := rm; cleanups := [name]; raised := Some e |}).
Proof.
  intros (Hr & Hm & Heq & _) Hg Hgm Hcf Hf.
  unfold unregister_resource. rewrite Hg, Hgm, Hcf, Hf. split.
  - intros ->. cbv zeta. unfold remove_entries.
    assert (Hmem : PyDict.mem (_resource_metadata rm) name = true)
      by (unfold PyDict.mem; now rewrite Hgm).
    rewrite Hmem. simpl. repeat split; now apply dict_get_del_eq.
  - now intros ->.
Qed.

Lemma unregister_cleanup_errors_witness :
  let c := unregister_resource two_resources "log" in
  raised c = None /\ cleanups c = ["log"%string]
  /\ PyDict.get (_resources (manager c)) "log" = None
  /\ PyDict.get (_resource_metadata (manager c)) "log" = None.
Proof.
  refine (proj1 (unregister_cleanup_errors two_resources "log" (PyStr "run.log")
                   {| created_at := 0; cleanup_func := Some close_fails; ref_count := 0 |}
                   close_fails (RuntimeError "already closed")
                   (reachable_manager_inv _ two_resources_reachable)
                   eq_refl eq_refl eq_refl eq_refl) eq_refl).
Defined.

End ResourceFurther.

(** ** BatchOperator: malformed keys and the reports *)

Section BatchFurther.
Import Batch.
Variable int16_parses : string -> bool.
Variable round2 : Q -> Q.

(** X27: [Device(udid)] accepts exactly the keys of 40 code points that
    [int(udid, 16)] parses. Any other key never reaches the operation:
    whatever the operation is, its worker returns a failed result whose error
    is the message of the [ValueError] of [Device(udid)]. For a key that is
    accepted, the worker runs the operation on the device of that key. *)
Theorem malformed_udid_fails (u : string) (operation : Device -> call_outcome)
    (start_time end_time : Q) :
  (py_len u <> 40%nat \/ int16_parses u = false ->
   Device_init int16_parses u = inr (ValueError ("无效的UDID格式: " +:+ u))
   /\ _execute_single int16_parses u operation start_time end_time
      = inl {| udid := u; success := false; result := PyNone;
               error := Some ("无效的UDID格式: " +:+ u)%string;
               duration := (end_time - start_time)%Q |})
  /\ (py_len u = 40%nat -> int16_parses u = true ->
      let device := {| device_udid := u; _info_cache := PyNone; _last_info_update := 0 |} in
      Device_init int16_parses u = inl device
      /\ (forall r, operation device = Returns r ->
            _execute_single int16_parses u operation start_time end_time
            = inl {| udid := u; success := true; result := r; error := None;
                     duration := (end_time - start_time)%Q |}))
  /\ (forall device, Device_init int16_parses u = inl device ->
      py_len u = 40%nat /\ int16_parses u = true).
Proof.
  split; [|split].
  - intros Hbad.
    assert (Hd : Device_init int16_parses u = inr (ValueError ("无效的UDID格式: " +:+ u))).
    { unfold Device_init, validate_udid. destruct Hbad as [Hlen|Hparse].
      - apply Nat.eqb_neq in Hlen. now rewrite Hlen.
      - destruct (py_len u =? 40)%nat; simpl; [now rewrite Hparse | reflexivity]. }
    split; [exact Hd|]. unfold _execute_single. now rewrite Hd.
  - intros Hlen Hparse. cbv zeta.
    assert (Hd : Device_init int16_parses u
                 = inl {| device_udid := u; _info_cache := PyNone;
                          _last_info_update := 0 |}).
    { unfold Device_init, validate_udid. apply Nat.eqb_eq in Hlen.
      now rewrite Hlen, Hparse. }
    split; [exact Hd|]. intros r Hr. unfold _execute_single. now rewrite Hd, Hr.
  - intros device. unfold Device_init, validate_udid.
    destruct (py_len u =? 40)%nat eqn:Hlen; simpl; [|discriminate].
    destruct (int16_parses u) eqn:Hparse; simpl; [|discriminate].
    intros _. apply Nat.eqb_eq in Hlen. now split.
Qed.

Lemma filter_partition_length {A : Type} (f : A -> bool) (l : list A) :
  (length (List.filter f l) + length (List.filter (fun x => negb (f x)) l))%nat = length l.
Proof.
  induction l as [|x l IH]; simpl; [reflexivity|].
  destruct (f x); simpl; lia.
Qed.

(** X28: in a summary report the successes and the failures add up to the
    number of results, neither count is negative, [failed_devices] lists the
    keys of the failed results in the order of the results and has
    [failure_count] entries, and it is empty exactly when every result
    succeeded; the detailed report has one entry for each result, in order. *)
Theorem summary_report_counts (results : list BatchResult) (name : string) (now : Q) :
  let report := generate_summary_report round2 results name now in
  total_count report = Z.of_nat (length results)
  /\ success_count report + failure_count report = total_count report
  /\ 0 <= success_count report /\ 0 <= failure_count report
  /\ Z.of_nat (length (failed_devices report)) = failure_count report
  /\ (forall d, In d (failed_devices report) <->
                exists r, In r results /\ success r = false /\ udid r = d)
  /\ (failed_devices report = [] <-> Forall (fun r => success r = true) results)
  /\ map detail_udid (snd (generate_detailed_report round2 results name now))
     = map udid results.
Proof.
  cbv zeta. unfold generate_detailed_report, generate_summary_report. simpl.
  pose proof (filter_partition_length success results) as Hp.
  split; [reflexivity|]. split; [lia|]. split; [lia|]. split; [lia|].
  split; [rewrite length_map; lia|]. split; [|split].
  - intros d. rewrite in_map_iff. split.
    + intros (r & Hu & Hin). apply filter_In in Hin as [Hin Hs].
      exists r. repeat split; auto. now destruct (success r).
    + intros (r & Hin & Hs & Hu). exists r. split; [exact Hu|].
      apply filter_In. split; [exact Hin | now rewrite Hs].
  - split.
    + intros Hnil. apply List.Forall_forall. intros r Hin.
      destruct (success r) eqn:Hs; [reflexivity|]. exfalso.
      assert (Hf : In (udid r) (map udid (List.filter (fun r => negb (success r)) results))).
      { apply in_map. apply filter_In. split; [exact Hin | now rewrite Hs]. }
      rewrite Hnil in Hf. exact Hf.
    + intros Hall. induction results as [|r rs IH]; simpl; [reflexivity|].
      apply Forall_cons in Hall as [Hr Hall]. rewrite Hr. simpl. apply IH; auto.
      apply filter_partition_length.
  - rewrite map_map. reflexivity.
Qed.

(** X29: the report of a batch in which every worker finished counts one
    result for each input key, and every key it lists as failed is one of the
    input keys (at least one worker allowed, operations that raise nothing
    beyond [Exception]). *)
Theorem batch_report_covers_keys (self : BatchOperator) (udids : list string)
    (operation : nat -> Device -> call_outcome) (clock : nat -> Q * Q)
    (yielded : list nat) (name : string) (now : Q) :
  0 < max_workers self ->
  contained int16_parses udids operation ->
  schedule_ok (length udids) yielded ->
  length yielded = length udids ->
  exists results,
    execute_batch int16_parses self udids operation clock yielded = inl results
    /\ total_count (generate_summary_report round2 results name now)
       = Z.of_nat (length udids)
    /\ (forall d, In d (failed_devices (generate_summary_report round2 results name now)) ->
          In d udids).
Proof.
  intros Hw Hc Hok Hlen.
  destruct (execute_batch_completes int16_parses self udids operation clock yielded
              Hw Hc Hok Hlen) as (results & He & HF & Hp).
  exists results. split; [exact He|]. split.
  - simpl. f_equal. rewrite <- (Forall2_length _ _ _ HF). exact Hlen.
  - intros d Hd. simpl in Hd. apply in_map_iff in Hd as (r & Hu & Hin).
    apply filter_In in Hin as [Hin _].
    apply list_elem_of_In. rewrite <- Hp. apply list_elem_of_In.
    apply in_map_iff. exists r. now split.
Qed.

End BatchFurther.

Lemma malformed_udid_fails_witness :
  (Batch.Device_init (fun _ => true) "udid1"
   = inr (ValueError ("无效的UDID格式: " +:+ "udid1"))
   /\ Batch._execute_single (fun _ => true) "udid1" (batch_operation 0) 1 3
      = inl {| Batch.udid := "udid1"; Batch.success := false; Batch.result := PyNone;
               Batch.error := Some ("无效的UDID格式: " +:+ "udid1")%string;
               Batch.duration := (3 - 1)%Q |})
  /\ String.length fullwidth_key = 120%nat
  /\ Batch._execute_single (fun _ => true) fullwidth_key (batch_operation 0) 1 3
     = inl {| Batch.udid := fullwidth_key; Batch.success := true;
              Batch.result := PyStr "iPhone"; Batch.error := None;
              Batch.duration := (3 - 1)%Q |}.
Proof.
  split; [|split; [reflexivity|]].
  - apply (malformed_udid_fails (fun _ => true) "udid1" (batch_operation 0) 1 3).
    left. simpl. lia.
  - destruct (malformed_udid_fails (fun _ => true) fullwidth_key (batch_operation 0) 1 3)
      as (_ & Hok & _).
    apply Hok; reflexivity.
Defined.

Lemma batch_report_covers_keys_witness :
  exists results,
    Batch.execute_batch (fun _ => true) default_operator batch_keys
      batch_operation batch_clock [2; 0; 1]%nat = inl results
    /\ Batch.total_count (Batch.generate_summary_report (fun q => q) results "status" 9)
       = Z.of_nat (length batch_keys)
    /\ (forall d,
          In d (Batch.failed_devices
                  (Batch.generate_summary_report (fun q => q) results "status" 9)) ->
          In d batch_keys).
Proof.
  apply (batch_report_covers_keys (fun _ => true) (fun q => q) default_operator batch_keys
           batch_operation batch_clock [2; 0; 1]%nat "status" 9).
  - reflexivity.
  - exact batch_contained.
  - split; [apply (bool_decide_unpack _); reflexivity | repeat constructor; simpl; lia].
  - reflexivity.
Defined.

(** ** The decorator [validate_input] *)

Section ValidateFurther.
Import Validate.

(** X30: the wrapper of [validate_input] checks keyword arguments only.
    When no validated parameter is passed by keyword the function is called
    whatever the validators are; the function is called exactly when every
    validator accepts the keyword argument passed under its name; otherwise
    the wrapper raises a [ValueError] that names a parameter passed by
    keyword and rejected by its validator, and the function is not called. *)
Theorem validate_input_keyword_only (validators : PyDict.t (pyval -> bool))
    (kwargs : PyDict.t pyval) (body : call_outcome) :
  (Forall (fun kv => PyDict.get kwargs (fst kv) = None) validators ->
   wrapper validators kwargs body = (body, true))
  /\ (snd (wrapper validators kwargs body) = true <->
      Forall (fun kv => forall value, PyDict.get kwargs (fst kv) = Some value ->
                                      snd kv value = true) validators)
  /\ (snd (wrapper validators kwargs body) = true ->
      fst (wrapper validators kwargs body) = body)
  /\ (snd (wrapper validators kwargs body) = false ->
      exists param_name validator value,
        In (param_name, validator) validators
        /\ PyDict.get kwargs param_name = Some value
        /\ validator value = false
        /\ fst (wrapper validators kwargs body)
           = Raises (ValueError ("参数验证失败: " +:+ param_name))).
Proof.
  unfold wrapper. split; [|split; [|split]].
  - intros Hall. replace (first_rejected validators kwargs) with (@None string);
      [reflexivity|].
    induction Hall as [|[p v] rest Hp _ IH]; simpl; [reflexivity|].
    simpl in Hp. now rewrite Hp.
  - induction validators as [|[p v] rest IH]; simpl.
    + split; [constructor | reflexivity].
    + destruct (PyDict.get kwargs p) as [value|] eqn:Hg.
      * destruct (v value) eqn:Hv; simpl.
        -- rewrite IH. split.
           ++ intros Hall. constructor; [|exact Hall]. simpl. intros x Hx.
              rewrite Hg in Hx. now injection Hx as <-.
           ++ intros Hall. now apply Forall_cons in Hall as [_ Hall].
        -- split; [discriminate|]. intros Hall. apply Forall_cons in Hall as [Hp _].
           simpl in Hp. specialize (Hp value Hg). congruence.
      * rewrite IH. split.
        -- intros Hall. constructor; [|exact Hall]. simpl. intros x Hx.
           rewrite Hg in Hx. discriminate.
        -- intros Hall. now apply Forall_cons in Hall as [_ Hall].
  - now destruct (first_rejected validators kwargs).
  - destruct (first_rejected validators kwargs) as [p|] eqn:Hr; [|discriminate].
    intros _. simpl.
    assert (H : exists validator value,
               In (p, validator) validators /\ PyDict.get kwargs p = Some value
               /\ validator value = false).
    { clear body. induction validators as [|[p0 v0] rest IH]; simpl in Hr; [discriminate|].
      destruct (PyDict.get kwargs p0) as [value|] eqn:Hg.
      - destruct (v0 value) eqn:Hv; simpl in Hr.
        + destruct (IH Hr) as (v & x & Hin & Hgx & Hvx). exists v, x.
          split; [now right | now split].
        + injection Hr as <-. exists v0, value. split; [now left | now split].
      - destruct (IH Hr) as (v & x & Hin & Hgx & Hvx). exists v, x.
        split; [now right | now split]. }
    destruct H as (v & x & Hin & Hg & Hv). exists p, v, x. now repeat split.
Qed.

Lemma validate_input_keyword_only_witness :
  wrapper [("port"%string, fun v => match v with PyInt z => (1 <=? z) && (z <=? 65535)
                                                | _ => false end)]
          [("udid"%string, PyStr "abc")] (Returns PyNone)
  = (Returns PyNone, true).
Proof.
  apply (validate_input_keyword_only
           [("port"%string, fun v => match v with PyInt z => (1 <=? z) && (z <=? 65535)
                                                  | _ => false end)]
           [("udid"%string, PyStr "abc")] (Returns PyNone)).
  repeat constructor.
Defined.

End ValidateFurther.
